(** * docs-index-keeper: the index synchronization engine

    A shallow embedding of [src/index.ts] (staged-file resolver, doc-set
    filter, table parser, row diff and row insertion, [update] and [check]),
    of the commands [update], [check] and [add] of [src/cli.ts] and of
    [loadConfig] of [src/config.ts], together with their properties.

    Modelling conventions.
    - A JavaScript string is a sequence of code units; it is modelled as a
      Rocq [string], i.e. code units in the range 0..255.  The string
      methods used by the engine ([startsWith], [indexOf], [slice],
      [split], [trim], ...) only look at code units, so they are written
      as functions on [string] with the results JavaScript gives.
    - A [Set<string>] is a [gset string]; the file system is a finite map
      from the paths of the files that can be read to their contents,
      and a second one for the paths that exist and cannot be read
      (directories, files without read permission): [existsSync] is true
      of both, [readFileSync] returns on the first only.
    - The engine reads the environment, runs git, reads and writes files
      and warns on the console.  All of that lives in a [World] that is
      passed explicitly; a function that can throw returns an [outcome].
    - [path.join] and the [RegExp] built at run time from the configured
      [docsDir] belong to the host and are operations of the [Host] class;
      so does [JSON.parse], the operation of the [JsonHost] class.
    - A command runs in a [Process]: the world and the lines printed on
      standard output and standard error; [process.exit] ends it. *)

From Stdlib Require Import ZArith String Ascii List Bool Lia.
From stdpp Require Import gmap strings list pretty.

Open Scope string_scope.
Open Scope Z_scope.

(** ** JavaScript string primitives *)

Module JS.

(** The line feed, ["\n"]. *)
Definition LF : ascii := "010"%char.
Definition nl : string := String LF "".

(** White space as matched by [String.prototype.trim] and by [\s], on
    code units below 256: TAB, LF, VT, FF, CR, SP and NBSP. *)
Definition isSpace (c : ascii) : bool :=
  let n := nat_of_ascii c in
  ((9 <=? n) && (n <=? 13) || (n =? 32) || (n =? 160))%nat.

(** Line terminators below 256 (the characters [.] does not match and
    after which [^] matches under the [m] flag): LF and CR. *)
Definition isLineTerminator (c : ascii) : bool :=
  let n := nat_of_ascii c in ((n =? 10) || (n =? 13))%nat.

Fixpoint str_take (n : nat) (s : string) : string :=
  match n, s with
  | S n', String c r => String c (str_take n' r)
  | _, _ => ""
  end.

Fixpoint str_drop (n : nat) (s : string) : string :=
  match n, s with
  | S n', String _ r => str_drop n' r
  | _, _ => s
  end.

(** [s.startsWith(pre)] *)
Fixpoint startsWith (pre s : string) : bool :=
  match pre, s with
  | "", _ => true
  | String a pre', String b s' => Ascii.eqb a b && startsWith pre' s'
  | String _ _, "" => false
  end.

(** [s.endsWith(suf)] *)
Definition endsWith (suf s : string) : bool :=
  (String.length suf <=? String.length s)%nat
  && String.eqb (str_drop (String.length s - String.length suf) s) suf.

(** First offset [>= i] at which [pat] occurs in [s], where [s] is the
    part of the subject that starts at offset [i]. *)
Fixpoint find (pat s : string) (i : nat) : option nat :=
  if startsWith pat s then Some i
  else match s with
       | "" => None
       | String _ r => find pat r (S i)
       end.

(** An index argument clamped to [0 .. s.length]. *)
Definition clamp (s : string) (i : Z) : nat :=
  Z.to_nat (Z.min (Z.max i 0) (Z.of_nat (String.length s))).

(** [s.indexOf(pat, from)]: the result is [-1] when there is no
    occurrence; a [from] below 0 counts as 0. *)
Definition indexOfFrom (pat s : string) (from : Z) : Z :=
  let k := clamp s from in
  match find pat (str_drop k s) k with
  | Some i => Z.of_nat i
  | None => -1
  end.

(** [s.indexOf(pat)] *)
Definition indexOf (pat s : string) : Z := indexOfFrom pat s 0.

(** [s.includes(pat)] *)
Definition includes (pat s : string) : bool :=
  negb (indexOf pat s =? -1).

(** A relative index of [slice]: negative counts from the end. *)
Definition sliceIndex (s : string) (i : Z) : nat :=
  if i <? 0 then Z.to_nat (Z.max (Z.of_nat (String.length s) + i) 0)
  else clamp s i.

(** [s.slice(from)] *)
Definition sliceFrom (s : string) (from : Z) : string :=
  str_drop (sliceIndex s from) s.

(** [s.slice(from, to)] *)
Definition slice (s : string) (from to : Z) : string :=
  let a := sliceIndex s from in
  let b := sliceIndex s to in
  str_take (b - a) (str_drop a s).

(** [s.split('\n')]: never empty, [''.split('\n')] is [['']]. *)
Fixpoint splitLines (s : string) : list string :=
  match s with
  | "" => [""]
  | String c r =>
      if Ascii.eqb c LF then "" :: splitLines r
      else match splitLines r with
           | l :: ls => String c l :: ls
           | [] => [String c ""]
           end
  end.

(** [lines.join('\n')] *)
Fixpoint joinLines (lines : list string) : string :=
  match lines with
  | [] => ""
  | [l] => l
  | l :: ls => l ++ nl ++ joinLines ls
  end.

(** [xs.join(', ')] *)
Fixpoint joinWith (sep : string) (xs : list string) : string :=
  match xs with
  | [] => ""
  | [x] => x
  | x :: r => x ++ sep ++ joinWith sep r
  end.

Fixpoint trimStart (s : string) : string :=
  match s with
  | String c r => if isSpace c then trimStart r else s
  | "" => ""
  end.

(** Drops trailing white space: a character is kept when something
    that is kept follows it or when it is not white space. *)
Fixpoint trimEnd (s : string) : string :=
  match s with
  | "" => ""
  | String c r =>
      match trimEnd r with
      | "" => if isSpace c then "" else String c ""
      | r' => String c r'
      end
  end.

(** [s.trim()] *)
Definition trim (s : string) : string := trimEnd (trimStart s).

(** Truthiness of a string: only [''] is falsy. *)
Definition truthy (s : string) : bool := negb (String.eqb s "").

(** [s.replace(/\.md$/, '')]: without the [m] flag [$] is the end of
    the input, so this removes a final [.md]. *)
Definition dropMdSuffix (s : string) : string :=
  if endsWith ".md" s then str_take (String.length s - 3) s else s.

(** [s.replace(/-/g, ' ')] *)
Fixpoint dashesToSpaces (s : string) : string :=
  match s with
  | "" => ""
  | String c r =>
      String (if Ascii.eqb c "-" then " "%char else c) (dashesToSpaces r)
  end.

End JS.

Import JS.

(** ** Data model *)

(** [interface IndexRow]; [purpose] is optional. *)
Record IndexRow := mkRow {
  title : string;
  path : string;
  purpose : option string
}.

(** [interface DocsIndexKeeperConfig] *)
Record DocsIndexKeeperConfig := mkConfig {
  indexFile : string;
  docsDir : string;
  exclude : list string;
  allowedRootMd : list string;
  warnRootMdFlag : bool
}.

(** [interface UpdateResult] *)
Record UpdateResult := mkResult {
  updated : bool;
  added : list IndexRow
}.

(** The default configuration of [config.ts]. *)
Definition DEFAULT : DocsIndexKeeperConfig :=
  {| indexFile := "docs/README.md";
     docsDir := "docs";
     exclude := ["README.md"; "archive/"];
     allowedRootMd := ["README.md"; "AGENTS.md"; "CONTRIBUTING.md";
                       "RENDER_DEPLOY.md"; "ENV_CHECKLIST.md"; "MIGRATION.md"];
     warnRootMdFlag := true |}.

(** The default value of the [sentinelPattern] parameter of [insertRows]. *)
Definition defaultSentinel : string := "| [archive/]".

(** The header row [insertRows] looks for. *)
Definition headerRow : string := "| Doc | Purpose |".

(** ** The world the engine runs in *)

(** Why a path that exists cannot be read. *)
Inductive Unreadable :=
| IsDirectory    (* the path is a directory *)
| NoPermission.  (* the path is a file the process may not read *)

Record World := mkWorld {
  (** [process.env.DOCS_INDEX_KEEPER_STAGED] *)
  env_staged : option string;
  (** what [git diff --cached --name-only] prints; [None] when the
      command fails (for instance outside a repository) *)
  git_staged : option string;
  (** the regular files that can be read, by path *)
  files : gmap string string;
  (** the other paths that exist: directories, and files that cannot be
      read; a path is looked up in [files] first *)
  unreadable : gmap string Unreadable;
  (** how often git has been run *)
  git_queries : nat;
  (** the [writeFileSync] calls made so far, oldest first *)
  writes : list (string * string);
  (** the lines printed by [console.warn], oldest first *)
  console : list string
}.

Inductive exn :=
| GitFailed          (* execSync throws *)
| RegExpSyntaxError  (* new RegExp throws *)
| ENOENT             (* readFileSync on a missing file *)
| EISDIR             (* readFileSync on a directory *)
| EACCES.            (* readFileSync on a file that may not be read *)

(** The error [readFileSync] throws on a path that cannot be read. *)
Definition readError (u : Unreadable) : exn :=
  match u with
  | IsDirectory => EISDIR
  | NoPermission => EACCES
  end.

Inductive outcome (A : Type) :=
| Ok (a : A) (w : World)
| Throw (e : exn) (w : World).
Arguments Ok {A} a w.
Arguments Throw {A} e w.

(** Computations that read and change the world and may throw. *)
Definition M (A : Type) : Type := World -> outcome A.

Definition ret {A} (a : A) : M A := fun w => Ok a w.

Definition throw {A} (e : exn) : M A := fun w => Throw e w.

Definition bind {A B} (m : M A) (k : A -> M B) : M B :=
  fun w => match m w with
           | Ok a w' => k a w'
           | Throw e w' => Throw e w'
           end.

Notation "'let*' x ':=' m 'in' k" := (bind m (fun x => k))
  (at level 10, x name, m at level 100, k at level 200).
Notation "m ';;' k" := (bind m (fun _ => k))
  (at level 100, k at level 200, right associativity).

(** The world an outcome ends in. *)
Definition world_of {A} (o : outcome A) : World :=
  match o with Ok _ w => w | Throw _ w => w end.

(** The host: [path.join] and the regular expressions compiled at run time. *)
Class Host := {
  (** [join(root, p)] of [node:path] *)
  join : string -> string -> string;
  (** [regExpRemove src] is [None] when [new RegExp(src)] throws a
      [SyntaxError], and otherwise the function [s => s.replace(new
      RegExp(src), '')] *)
  regExpRemove : string -> option (string -> string)
}.

(** *** File system, git, console *)

(** [existsSync(p)]: true of every path that exists, the directories
    and the files that cannot be read included. *)
Definition existsSync (p : string) : M bool :=
  fun w => Ok (bool_decide (is_Some (files w !! p))
               || bool_decide (is_Some (unreadable w !! p))) w.

(** [readFileSync(p, 'utf-8')]: the content of a regular file that can
    be read; it throws on a directory, on a file that may not be read
    and on a path that does not exist. *)
Definition readFileSync (p : string) : M string :=
  fun w => match files w !! p with
           | Some content => Ok content w
           | None =>
               match unreadable w !! p with
               | Some u => Throw (readError u) w
               | None => Throw ENOENT w
               end
           end.

(** [writeFileSync(p, content)]: a full overwrite.  The engine and the
    commands write one path only, the index file they have just read, so
    the path is a file; a write that fails (a file that may not be
    written, a full disk) is outside the model. *)
Definition writeFileSync (p content : string) : M unit :=
  fun w => Ok tt {| env_staged := env_staged w;
                    git_staged := git_staged w;
                    files := <[p := content]> (files w);
                    unreadable := unreadable w;
                    git_queries := git_queries w;
                    writes := writes w ++ [(p, content)];
                    console := console w |}.

(** The world after one more run of git. *)
Definition countGitQuery (w : World) : World :=
  {| env_staged := env_staged w;
     git_staged := git_staged w;
     files := files w;
     unreadable := unreadable w;
     git_queries := S (git_queries w);
     writes := writes w;
     console := console w |}.

(** [execSync('git diff --cached --name-only', ...)] *)
Definition execGitDiffCached : M string :=
  fun w =>
    match git_staged w with
    | Some out => Ok out (countGitQuery w)
    | None => Throw GitFailed (countGitQuery w)
    end.

(** [console.warn(...)] *)
Definition consoleWarn (msg : string) : M unit :=
  fun w => Ok tt {| env_staged := env_staged w;
                    git_staged := git_staged w;
                    files := files w;
     unreadable := unreadable w;
                    git_queries := git_queries w;
                    writes := writes w;
                    console := console w ++ [msg] |}.

(** [process.env.DOCS_INDEX_KEEPER_STAGED] *)
Definition getEnvStaged : M (option string) :=
  fun w => Ok (env_staged w) w.

(** ** The engine *)

(** [a ?? b] *)
Definition nullish {A} (a b : option A) : option A :=
  match a with Some x => Some x | None => b end.

(** The lines of [raw], trimmed, those that end in [.md]. *)
Definition mdLines (raw : string) : list string :=
  List.filter (endsWith ".md") (map trim (splitLines raw)).

(** [getStagedMdFiles] *)
Definition getStagedMdFiles (stagedOverride : option string) : M (list string) :=
  let* envOverride := getEnvStaged in
  match nullish stagedOverride envOverride with
  | Some raw =>
      if truthy raw then ret (mdLines raw)
      else let* out := execGitDiffCached in ret (mdLines out)
  | None => let* out := execGitDiffCached in ret (mdLines out)
  end.

(** The predicate of the [filter] in [getStagedDocs]. *)
Definition isStagedDoc (config : DocsIndexKeeperConfig) (p : string) : bool :=
  let docsPrefix := docsDir config ++ "/" in
  if negb (startsWith docsPrefix p) then false
  else
    let rel := sliceFrom p (Z.of_nat (String.length docsPrefix)) in
    if existsb (fun e => String.eqb rel e || startsWith e rel) (exclude config)
    then false
    else true.

(** [getStagedDocs] *)
Definition getStagedDocs (staged : list string) (config : DocsIndexKeeperConfig)
  : list string :=
  List.filter (isStagedDoc config) staged.

(** *** First heading: [content.match(/^#+\s+(.+)$/m)] *)

(** [(.+)$]: the longest run of characters other than line terminators,
    which has to be non-empty; under the [m] flag [$] holds where it ends. *)
Fixpoint lineRun (s : string) : string :=
  match s with
  | "" => ""
  | String c r => if isLineTerminator c then "" else String c (lineRun r)
  end.

Definition captureLine (s : string) : option string :=
  match lineRun s with
  | "" => None
  | g => Some g
  end.

(** [\s+(.+)$] at the start of [s].  The quantifier is greedy: more
    white space is tried first, and given back when the rest fails. *)
Fixpoint spacesThenLine (s : string) : option string :=
  match s with
  | "" => None
  | String c r =>
      if isSpace c then
        match spacesThenLine r with
        | Some g => Some g
        | None => captureLine r
        end
      else None
  end.

(** [#+\s+(.+)$] at the start of [s]. *)
Fixpoint hashesThenLine (s : string) : option string :=
  match s with
  | "" => None
  | String c r =>
      if Ascii.eqb c "#" then
        match hashesThenLine r with
        | Some g => Some g
        | None => spacesThenLine r
        end
      else None
  end.

(** The first match, from left to right; [^] holds at the start of the
    input and after every line terminator. *)
Fixpoint headingFrom (atLineStart : bool) (s : string) : option string :=
  match (if atLineStart then hashesThenLine s else None) with
  | Some g => Some g
  | None =>
      match s with
      | "" => None
      | String c r => headingFrom (isLineTerminator c) r
      end
  end.

Definition headingMatch (content : string) : option string :=
  headingFrom true content.

(** *** Link cell: [line.match(/\|\s*\[([^\]]+)\]\(([^)]+)\)\s*\|/)] *)

(** [\s*]: skips the white space at the start of [s]. *)
Fixpoint skipSpaces (s : string) : string :=
  match s with
  | String c r => if isSpace c then skipSpaces r else s
  | "" => ""
  end.

(** A run of characters other than [stop] followed by [stop]: the run,
    and what follows that [stop]; [None] when [stop] does not occur. *)
Fixpoint upTo (stop : ascii) (s : string) : option (string * string) :=
  match s with
  | "" => None
  | String c r =>
      if Ascii.eqb c stop then Some ("", r)
      else match upTo stop r with
           | Some (g, rest) => Some (String c g, rest)
           | None => None
           end
  end.

(** The pattern at the start of [s]; the result is the two groups. *)
Definition linkAt (s : string) : option (string * string) :=
  match s with
  | String "|" r =>
      match skipSpaces r with
      | String "[" r1 =>
          match upTo "]" r1 with
          | Some (String c t, String "(" r2) =>
              match upTo ")" r2 with
              | Some (String d p, r3) =>
                  match skipSpaces r3 with
                  | String "|" _ => Some (String c t, String d p)
                  | _ => None
                  end
              | _ => None
              end
          | _ => None
          end
      | _ => None
      end
  | _ => None
  end.

(** The leftmost match in [s]. *)
Fixpoint linkMatch (s : string) : option (string * string) :=
  match linkAt s with
  | Some m => Some m
  | None =>
      match s with
      | "" => None
      | String _ r => linkMatch r
      end
  end.

(** *** Table parser *)

(** The variables of the loop in [parseTable]. *)
Record ParseState := mkParse {
  inTable : bool;
  rows : list IndexRow
}.

(** What one iteration of the loop does. *)
Inductive Step :=
| Next (st : ParseState)    (* go on with the next line *)
| Break (st : ParseState).  (* leave the loop *)

(** The condition [line.startsWith('|') && line.includes('|')]. *)
Definition isTableLine (line : string) : bool :=
  startsWith "|" line && includes "|" line.

(** The body of the loop in [parseTable]. *)
Definition parseLine (st : ParseState) (line : string) : Step :=
  if isTableLine line then
    match linkMatch line with
    | Some (t, p) =>
        Next {| inTable := true;
                rows := rows st ++ [{| title := t; path := p; purpose := None |}] |}
    | None => Next {| inTable := true; rows := rows st |}
    end
  else if inTable st && negb (startsWith "|" (trim line)) then Break st
  else Next st.

Fixpoint parseLines (lines : list string) (st : ParseState) : list IndexRow :=
  match lines with
  | [] => rows st
  | line :: rest =>
      match parseLine st line with
      | Next st' => parseLines rest st'
      | Break st' => rows st'
      end
  end.

(** [parseTable] *)
Definition parseTable (readmeContent : string) : list IndexRow :=
  parseLines (splitLines readmeContent) {| inTable := false; rows := [] |}.

(** *** Root-level warning *)

(** [p.replace(/^.*\//, '')]: [.*] is greedy and stays on the first line,
    so everything up to the last [/] of the first line goes. *)
Fixpoint afterLastSlash (s : string) : option string :=
  match s with
  | "" => None
  | String c r =>
      if isLineTerminator c then None
      else match afterLastSlash r with
           | Some b => Some b
           | None => if Ascii.eqb c "/" then Some r else None
           end
  end.

Definition baseName (p : string) : string :=
  match afterLastSlash p with
  | Some b => b
  | None => p
  end.

(** [xs.includes(x)] on an array of strings. *)
Definition arrayIncludes (xs : list string) (x : string) : bool :=
  existsb (String.eqb x) xs.

(** [warnRootMd] *)
Definition warnRootMd (staged : list string) (config : DocsIndexKeeperConfig)
  : M unit :=
  if negb (warnRootMdFlag config) then ret tt
  else
    let rootMd :=
      List.filter (fun p => negb (includes "/" p) || startsWith ".github/" p)
                  staged in
    let inRoot :=
      List.filter (fun p => negb (arrayIncludes (allowedRootMd config) (baseName p)))
                  rootMd in
    match inRoot with
    | [] => ret tt
    | _ =>
        consoleWarn
          ("[docs-index-keeper] New/changed .md in root or .github:" ++ " "
           ++ joinWith ", " inRoot ++ " " ++ nl
           ++ "Consider moving to docs/ and they will be added to the index.")
    end.

(** *** Row diff and insertion *)

(** The template literal of [insertRows]. *)
Definition renderRow (r : IndexRow) : string :=
  "| [" ++ title r ++ "](" ++ path r ++ ") | "
  ++ default (title r) (purpose r) ++ " |".

(** The offset [insertRows] writes at. *)
Definition insertIdx (readme sentinelPattern : string) : Z :=
  let insertIdx := indexOf sentinelPattern readme in
  let insertIdx :=
    if insertIdx =? -1
    then indexOfFrom (nl ++ nl) readme (indexOf headerRow readme)
    else insertIdx in
  let insertIdx :=
    if insertIdx =? -1 then Z.of_nat (String.length readme) else insertIdx in
  insertIdx.

(** [insertRows] *)
Definition insertRows (readme : string) (newRows : list IndexRow)
    (sentinelPattern : string) : string :=
  let newLines := map renderRow newRows in
  let insertIdx := insertIdx readme sentinelPattern in
  slice readme 0 insertIdx ++ joinLines newLines ++ nl
  ++ sliceFrom readme insertIdx.

(** [new Set(existing.map((r) => r.path))] *)
Definition pathSet (existing : list IndexRow) : gset string :=
  list_to_set (map path existing).

Definition noChange : UpdateResult := {| updated := false; added := [] |}.

Section WithHost.

Context `{Host}.

(** [getFirstHeading] *)
Definition getFirstHeading (root filePath : string) : M (option string) :=
  let full := join root filePath in
  let* found := existsSync full in
  if negb found then ret None
  else
    let* content := readFileSync full in
    match headingMatch content with
    | Some g => ret (Some (trim g))
    | None => ret None
    end.

(** [p.replace(new RegExp(`^${config.docsDir}/`), '')] *)
Definition stripDocsDir (config : DocsIndexKeeperConfig) (p : string)
  : M string :=
  match regExpRemove ("^" ++ docsDir config ++ "/") with
  | Some remove => ret (remove p)
  | None => throw RegExpSyntaxError
  end.

(** [a || b] on a heading that may be [null] or empty. *)
Definition orElse (a : option string) (b : string) : string :=
  match a with
  | Some s => if truthy s then s else b
  | None => b
  end.

(** The loop of [computeNewRows]: [existingPaths] and [toAdd] are the
    two objects the loop changes. *)
Fixpoint computeNewRowsLoop (root : string) (stagedDocs : list string)
    (existingPaths : gset string) (config : DocsIndexKeeperConfig)
    (toAdd : list IndexRow) : M (list IndexRow * gset string) :=
  match stagedDocs with
  | [] => ret (toAdd, existingPaths)
  | p :: rest =>
      let* path := stripDocsDir config p in
      if bool_decide (path ∈ existingPaths)
      then computeNewRowsLoop root rest existingPaths config toAdd
      else
        let titleFromPath := dashesToSpaces (dropMdSuffix path) in
        let* heading := getFirstHeading root p in
        let purpose := orElse heading titleFromPath in
        let title := dropMdSuffix path in
        computeNewRowsLoop root rest ({[path]} ∪ existingPaths) config
          (toAdd ++ [{| title := title; path := path; purpose := Some purpose |}])
  end.

(** [computeNewRows]: the rows to add, and the set it was given as the
    loop leaves it. *)
Definition computeNewRows (root : string) (stagedDocs : list string)
    (existingPaths : gset string) (config : DocsIndexKeeperConfig)
  : M (list IndexRow * gset string) :=
  computeNewRowsLoop root stagedDocs existingPaths config [].

(** [update] *)
Definition update (root : string) (config : DocsIndexKeeperConfig)
    (stagedOverride : option string) : M UpdateResult :=
  let indexPath := join root (indexFile config) in
  let* staged := getStagedMdFiles stagedOverride in
  if (length staged =? 0)%nat then ret noChange
  else
    warnRootMd staged config ;;
    let stagedDocs := getStagedDocs staged config in
    if (length stagedDocs =? 0)%nat then ret noChange
    else
      let* found := existsSync indexPath in
      if negb found then ret noChange
      else
        let* readme := readFileSync indexPath in
        let existing := parseTable readme in
        let existingPaths := pathSet existing in
        let* res := computeNewRows root stagedDocs existingPaths config in
        let toAdd := fst res in
        if (length toAdd =? 0)%nat then ret noChange
        else
          let readme' := insertRows readme toAdd defaultSentinel in
          writeFileSync indexPath readme' ;;
          ret {| updated := true; added := toAdd |}.

(** The loop of [check]. *)
Fixpoint checkLoop (stagedDocs : list string) (existingPaths : gset string)
    (config : DocsIndexKeeperConfig) : M bool :=
  match stagedDocs with
  | [] => ret true
  | p :: rest =>
      let* path := stripDocsDir config p in
      if negb (bool_decide (path ∈ existingPaths)) then ret false
      else checkLoop rest existingPaths config
  end.

(** [check] *)
Definition check (root : string) (config : DocsIndexKeeperConfig)
    (stagedOverride : option string) : M bool :=
  let indexPath := join root (indexFile config) in
  let* staged := getStagedMdFiles stagedOverride in
  let stagedDocs := getStagedDocs staged config in
  if (length stagedDocs =? 0)%nat then ret true
  else
    let* found := existsSync indexPath in
    if negb found then ret true
    else
      let* readme := readFileSync indexPath in
      let existing := parseTable readme in
      let existingPaths := pathSet existing in
      checkLoop stagedDocs existingPaths config.

End WithHost.

(** *** A host for running the engine on examples *)

(** Characters with a meaning in a regular expression. *)
Definition isMeta (c : ascii) : bool :=
  existsb (Ascii.eqb c)
    ["\"; "^"; "$"; "."; "|"; "?"; "*"; "+"; "("; ")"; "["; "]"; "{"; "}"]%char.

Fixpoint isLiteral (s : string) : bool :=
  match s with
  | "" => true
  | String c r => negb (isMeta c) && isLiteral r
  end.

(** [s.replace(new RegExp(src), '')] for the sources [^text] in which
    [text] has no character with a special meaning: the prefix [text] is
    removed when [s] starts with it.  Other sources are not covered by
    this host and are reported as a syntax error. *)
Definition literalRegExpRemove (src : string) : option (string -> string) :=
  match src with
  | String "^" text =>
      if isLiteral text
      then Some (fun s => if startsWith text s then str_drop (String.length text) s else s)
      else None
  | _ => None
  end.

(** [path.join] for a root without a final [/] and a relative path that
    needs no normalisation. *)
Definition plainHost : Host :=
  {| join := fun root p => root ++ "/" ++ p;
     regExpRemove := literalRegExpRemove |}.

(** ** Examples: configurations, documents and worlds *)

(** The configuration of the test suite: the defaults without the
    root-level warning. *)
Definition testConfig : DocsIndexKeeperConfig :=
  {| indexFile := "docs/README.md";
     docsDir := "docs";
     exclude := ["README.md"; "archive/"];
     allowedRootMd := ["README.md"];
     warnRootMdFlag := false |}.

Definition emptyWorld : World :=
  {| env_staged := None; git_staged := None; files := ∅; unreadable := ∅;
     git_queries := 0; writes := []; console := [] |}.

(** A world with the given files and nothing else. *)
Definition worldWith (fs : gmap string string) : World :=
  {| env_staged := None; git_staged := None; files := fs; unreadable := ∅;
     git_queries := 0; writes := []; console := [] |}.

(** An index whose table is followed by a blank line and more text, and
    which has no archive row. *)
Definition indexWithoutSentinel : string :=
"# Docs

| Doc | Purpose |
|-----|---------|
| [a](a.md) | A |

See also the wiki.
".

(** What [update] leaves of it when [docs/b.md] is staged. *)
Definition indexWithoutSentinelUpdated : string :=
"# Docs

| Doc | Purpose |
|-----|---------|
| [a](a.md) | A || [b](b.md) | Guide B |


See also the wiki.
".

(** And what a second [update] with the same staged file leaves. *)
Definition indexWithoutSentinelUpdatedTwice : string :=
"# Docs

| Doc | Purpose |
|-----|---------|
| [a](a.md) | A || [b](b.md) | Guide B || [b](b.md) | Guide B |



See also the wiki.
".

(** A repository with that index and an unindexed [docs/b.md]. *)
Definition repoWithoutSentinel : World :=
  worldWith (<["/repo/docs/README.md" := indexWithoutSentinel]>
             (<["/repo/docs/b.md" := "# Guide B" ++ nl ++ "Text"]> ∅)).

Definition rowB : IndexRow :=
  {| title := "b"; path := "b.md"; purpose := Some "Guide B" |}.

(** A document without the header row and without the archive row. *)
Definition plainDocument : string :=
"intro

body".

(** The repository after [update] has run on [repoWithoutSentinel] with
    [docs/b.md] staged, and after it has run a second time. *)
Definition repoAfterUpdate : World :=
  world_of (update (H := plainHost) "/repo" testConfig (Some "docs/b.md")
              repoWithoutSentinel).

Definition repoAfterSecondUpdate : World :=
  world_of (update (H := plainHost) "/repo" testConfig (Some "docs/b.md")
              repoAfterUpdate).

(** The index of the test suite, with its archive row. *)
Definition indexWithSentinel : string :=
"# Doc index
| Doc | Purpose |
|-----|---------|
| [archive/](archive/) | Historical |
".

(** The repository of the test [adds new doc to index]. *)
Definition repoWithSentinel : World :=
  worldWith (<["/repo/docs/README.md" := indexWithSentinel]>
             (<["/repo/docs/new-doc.md" := "# New Doc" ++ nl ++ "Content"]> ∅)).

Definition rowNewDoc : IndexRow :=
  {| title := "new-doc"; path := "new-doc.md"; purpose := Some "New Doc" |}.

Definition repoWithSentinelUpdated : World :=
  world_of (update (H := plainHost) "/repo" testConfig (Some "docs/new-doc.md")
              repoWithSentinel).

(** ** Predicates used in the statements *)

(** [p] is a candidate the doc-set filter has to keep: it starts with
    [docsDir + "/"], and what follows that prefix neither is an entry of
    [exclude] nor starts with one. *)
Definition KeptCandidate (config : DocsIndexKeeperConfig) (p : string) : Prop :=
  exists rel : string,
    p = (docsDir config ++ "/") ++ rel
    /\ forall e, In e (exclude config) ->
                 rel <> e /\ ~ (exists t, rel = e ++ t).

(** A world in which git would list [docs/x.md] as staged. *)
Definition worldWithGit : World :=
  {| env_staged := None; git_staged := Some ("docs/x.md" ++ nl); files := ∅;
     unreadable := ∅;
     git_queries := 0; writes := []; console := [] |}.

(** The loop of [parseTable] together with the state it stops in. *)
Fixpoint scanLines (lines : list string) (st : ParseState) : Step :=
  match lines with
  | [] => Next st
  | line :: rest =>
      match parseLine st line with
      | Next st' => scanLines rest st'
      | Break st' => Break st'
      end
  end.

Definition stateOf (s : Step) : ParseState :=
  match s with Next st => st | Break st => st end.

(** The state [parseTable] starts in. *)
Definition initialParse : ParseState := {| inTable := false; rows := [] |}.

(** A row as the parser returns it: without purpose. *)
Definition asParsed (r : IndexRow) : IndexRow :=
  {| title := title r; path := path r; purpose := None |}.

(** The row renders to one line, and the link pattern finds the title
    and the path of the row in that line. *)
Definition readsBack (r : IndexRow) : bool :=
  bool_decide (splitLines (renderRow r) = [renderRow r])
  && bool_decide (linkMatch (renderRow r) = Some (title r, path r)).

(** The character [c] does not occur in [s]. *)
Fixpoint lacks (c : ascii) (s : string) : bool :=
  match s with
  | "" => true
  | String d r => negb (Ascii.eqb d c) && lacks c r
  end.

(** Title, path and purpose are made of characters the row syntax can
    carry: no line feed, no [\]] in the title, no [)] in the path, and
    neither title nor path is empty. *)
Definition wellFormedRow (r : IndexRow) : bool :=
  negb (String.eqb (title r) "") && lacks "]" (title r) && lacks LF (title r)
  && negb (String.eqb (path r) "") && lacks ")" (path r) && lacks LF (path r)
  && lacks LF (default (title r) (purpose r)).

(** The first occurrence of the default sentinel in [readme] is at the
    start of a line, and the scan of [parseTable] is still running when
    it gets to that line. *)
Definition sentinelOpensTableLine (readme : string) : bool :=
  let k := indexOf defaultSentinel readme in
  if k =? -1 then false
  else
    let pre := str_take (Z.to_nat k) readme in
    match pre with
    | "" => true
    | _ =>
        endsWith nl pre
        && match scanLines (splitLines (str_take (String.length pre - 1) pre))
                   initialParse with
           | Next _ => true
           | Break _ => false
           end
    end.

(** The world is left as it is, whatever the outcome. *)
Definition readOnly {A} (m : M A) : Prop :=
  forall w, world_of (m w) = w.

(** Files and write log of [w'] are those of [w]. *)
Definition sameDisk (w w' : World) : Prop :=
  files w' = files w /\ writes w' = writes w.

(** The staged-file sources of [w'] are those of [w]. *)
Definition sameInputs (w w' : World) : Prop :=
  env_staged w' = env_staged w /\ git_staged w' = git_staged w.

(** No file is written, whatever the outcome. *)
Definition writesNothing {A} (m : M A) : Prop :=
  forall w, sameDisk w (world_of (m w)).

(** A computation of [update] writes the file [p], once, exactly when
    its result says [updated]. *)
Definition writesWhenUpdated (p : string) (m : M UpdateResult) : Prop :=
  forall w,
    match m w with
    | Ok r w' =>
        if updated r
        then exists content,
               writes w' = (writes w ++ [(p, content)])%list
               /\ files w' = <[p := content]> (files w)
        else sameDisk w w'
    | Throw _ w' => sameDisk w w'
    end.


(** The row [computeNewRows] makes of a path and the heading found. *)
Definition rowFor (path : string) (heading : option string) : IndexRow :=
  {| title := dropMdSuffix path;
     path := path;
     purpose := Some (orElse heading (dashesToSpaces (dropMdSuffix path))) |}.

(** The world of the test [uses DOCS_INDEX_KEEPER_STAGED env when set]. *)
Definition worldWithEnv : World :=
  {| env_staged := Some ("docs/foo.md" ++ nl ++ "docs/bar.md" ++ nl);
     git_staged := None; files := ∅; unreadable := ∅;
     git_queries := 0; writes := []; console := [] |}.

(** A table whose block is followed by a paragraph and, after that, by a
    second table. *)
Definition twoTables : string :=
"| Doc | Purpose |
|-----|---------|
| [a](a.md) | A |
Notes".

Definition secondTable : string :=
"| [late](late.md) | Late |".

(** The two lines every index table of the project starts with. *)
Definition tableHead : string :=
  headerRow ++ nl ++ "|-----|---------|".

(** The carriage return. *)
Definition CR : ascii := "013"%char.

(** [s] has no line terminator. *)
Fixpoint noLineTerminator (s : string) : bool :=
  match s with
  | "" => true
  | String c r => negb (isLineTerminator c) && noLineTerminator r
  end.

(** [n] times the character [c]. *)
Fixpoint repeatChar (c : ascii) (n : nat) : string :=
  match n with
  | O => ""
  | S n' => String c (repeatChar c n')
  end.

(** No line of [pre] starts with [#], and [pre] ends where a line starts
    ([atLineStart] says whether [pre] itself starts a line). *)
Fixpoint skipsPreamble (atLineStart : bool) (pre : string) : bool :=
  match pre with
  | "" => atLineStart
  | String c r =>
      negb (atLineStart && Ascii.eqb c "#")
      && skipsPreamble (isLineTerminator c) r
  end.

(** [s] is empty or starts with a line terminator. *)
Definition endsLine (s : string) : bool :=
  match s with
  | "" => true
  | String c _ => isLineTerminator c
  end.

(** A docs-relative path the row syntax can carry: not empty, not just
    [.md], and without [\]], [)] and line feed. *)
Definition plainPath (p : string) : bool :=
  negb (String.eqb p "") && negb (String.eqb p ".md")
  && lacks "]" p && lacks ")" p && lacks LF p.

(** The repository of the test [extracts first h1]. *)
Definition repoWithTitle : World :=
  worldWith (<["/repo/doc.md" := "# My Title" ++ nl ++ nl ++ "Body"]> ∅).

(** The outcome [o] with the world [v] in the place of its own. *)
Definition onWorld {A} (v : World) (o : outcome A) : outcome A :=
  match o with
  | Ok a _ => Ok a v
  | Throw e _ => Throw e v
  end.

(** [config] with other settings for the root-level warning. *)
Definition withWarning (config : DocsIndexKeeperConfig)
    (allowed : list string) (flag : bool) : DocsIndexKeeperConfig :=
  {| indexFile := indexFile config;
     docsDir := docsDir config;
     exclude := exclude config;
     allowedRootMd := allowed;
     warnRootMdFlag := flag |}.

(** ** The command line ([cli.ts]) *)

(** The process a command runs in: the world of the engine and the lines
    printed by [console.log] and [console.error], oldest first. *)
Record Process := mkProcess {
  world : World;
  stdout : list string;
  stderr : list string
}.

(** How a command ends: it gets to its end, [process.exit] ends it, or
    an exception leaves it. *)
Inductive ending (A : Type) :=
| Returned (a : A) (p : Process)
| Exited (code : Z) (p : Process)
| Uncaught (e : exn) (p : Process).
Arguments Returned {A} a p.
Arguments Exited {A} code p.
Arguments Uncaught {A} e p.

Definition Cli (A : Type) : Type := Process -> ending A.

Definition cret {A} (a : A) : Cli A := fun p => Returned a p.

Definition cbind {A B} (m : Cli A) (k : A -> Cli B) : Cli B :=
  fun p => match m p with
           | Returned a p' => k a p'
           | Exited code p' => Exited code p'
           | Uncaught e p' => Uncaught e p'
           end.

Notation "'let+' x ':=' m 'in' k" := (cbind m (fun x => k))
  (at level 10, x name, m at level 100, k at level 200).
Notation "m ';;;' k" := (cbind m (fun _ => k))
  (at level 100, k at level 200, right associativity).

(** The process an ending leaves. *)
Definition process_of {A} (e : ending A) : Process :=
  match e with
  | Returned _ p => p
  | Exited _ p => p
  | Uncaught _ p => p
  end.

(** A computation of the engine, run in the process. *)
Definition liftM {A} (m : M A) : Cli A :=
  fun p =>
    match m (world p) with
    | Ok a w' =>
        Returned a {| world := w'; stdout := stdout p; stderr := stderr p |}
    | Throw e w' =>
        Uncaught e {| world := w'; stdout := stdout p; stderr := stderr p |}
    end.

(** [console.log(...)]: the arguments, separated by a space. *)
Definition consoleLog (msg : string) : Cli unit :=
  fun p => Returned tt {| world := world p;
                          stdout := stdout p ++ [msg];
                          stderr := stderr p |}.

(** [console.error(...)] *)
Definition consoleError (msg : string) : Cli unit :=
  fun p => Returned tt {| world := world p;
                          stdout := stdout p;
                          stderr := stderr p ++ [msg] |}.

(** [process.exit(code)] *)
Definition processExit {A} (code : Z) : Cli A :=
  fun p => Exited code p.

(** The double quote. *)
Definition dquote : ascii := ascii_of_nat 34.

(** The test [config.exclude.some((e) => rel === e || rel.startsWith(e))]. *)
Definition isExcluded (config : DocsIndexKeeperConfig) (rel : string) : bool :=
  existsb (fun e => String.eqb rel e || startsWith e rel) (exclude config).

Section CommandLine.

Context `{Host}.



(** The docs-relative path of [case 'add']. *)
Definition addRel (config : DocsIndexKeeperConfig) (pathArg : string)
  : Cli string :=
  if startsWith (docsDir config ++ "/") pathArg
  then liftM (stripDocsDir config pathArg)
  else cret pathArg.

(** [case 'add'] of [main]; [pathArg] is [args[1]]. *)
Definition cliAdd (root : string) (config : DocsIndexKeeperConfig)
    (pathArg : option string) : Cli unit :=
  match pathArg with
  | None =>
      consoleError
        "[docs-index-keeper] add requires a path. Example: docs-index-keeper add docs/my-doc.md" ;;;
      processExit 1
  | Some pathArg =>
      if negb (truthy pathArg)
      then
        consoleError
          "[docs-index-keeper] add requires a path. Example: docs-index-keeper add docs/my-doc.md" ;;;
        processExit 1
      else
        let indexPath := join root (indexFile config) in
        let+ found := liftM (existsSync indexPath) in
        if negb found
        then
          consoleError ("[docs-index-keeper] Index file not found:" ++ " "
                        ++ indexFile config) ;;;
          processExit 1
        else
          let+ rel := addRel config pathArg in
          if isExcluded config rel
          then
            consoleError ("[docs-index-keeper] Path is excluded:" ++ " "
                          ++ pathArg) ;;;
            processExit 1
          else
            let fullPath := join root pathArg in
            let+ present := liftM (existsSync fullPath) in
            if negb present
            then
              consoleError ("[docs-index-keeper] File not found:" ++ " "
                            ++ pathArg) ;;;
              processExit 1
            else
              let+ readme := liftM (readFileSync indexPath) in
              let existing := parseTable readme in
              let existingPaths := pathSet existing in
              if bool_decide (rel ∈ existingPaths)
              then
                consoleLog ("[docs-index-keeper] Already in index:" ++ " "
                            ++ rel)
              else
                let title := dropMdSuffix rel in
                let+ heading := liftM (getFirstHeading root pathArg) in
                let purpose := orElse heading (dashesToSpaces title) in
                let toAdd :=
                  [{| title := title; path := rel; purpose := Some purpose |}] in
                let readme' := insertRows readme toAdd defaultSentinel in
                liftM (writeFileSync indexPath readme') ;;;
                consoleLog ("[docs-index-keeper] Added to" ++ " "
                            ++ (indexFile config ++ ":") ++ " " ++ rel)
  end.

End CommandLine.

(** A process that has printed nothing yet. *)
Definition processIn (w : World) : Process :=
  {| world := w; stdout := []; stderr := [] |}.

(** The process [p] after one more line on standard output. *)
Definition logged (p : Process) (msg : string) : Process :=
  {| world := world p; stdout := (stdout p ++ [msg])%list; stderr := stderr p |}.

(** The process [p] after one more line on standard error. *)
Definition complained (p : Process) (msg : string) : Process :=
  {| world := world p; stdout := stdout p; stderr := (stderr p ++ [msg])%list |}.

(** The process [p] with the world [w]. *)
Definition inWorld (p : Process) (w : World) : Process :=
  {| world := w; stdout := stdout p; stderr := stderr p |}.

(** What [getFirstHeading] makes of the content of a file. *)
Definition headingOf (content : string) : option string :=
  match headingMatch content with
  | Some g => Some (trim g)
  | None => None
  end.

(** The process after [add docs/new-doc.md] in the repository of the
    test [adds new doc to index]. *)
Definition processAfterAdd : Process :=
  process_of (cliAdd (H := plainHost) "/repo" testConfig
                (Some "docs/new-doc.md") (processIn repoWithSentinel)).


(** ** The configuration loader ([config.ts]) *)

#[local] Unset Elimination Schemes.

(** A value [JSON.parse] returns; an object is the finite map of its own
    properties. *)
Inductive Json :=
| JNull
| JBool (b : bool)
| JNumber (literal : string)
| JString (s : string)
| JArray (items : list Json)
| JObject (props : gmap string Json).

#[local] Set Elimination Schemes.

(** The host's [JSON.parse]: [None] when it throws a [SyntaxError]. *)
Class JsonHost := {
  jsonParse : string -> option Json
}.

(** The object [DEFAULT]. *)
Definition defaultObject : gmap string Json :=
  <["indexFile" := JString (indexFile DEFAULT)]>
  (<["docsDir" := JString (docsDir DEFAULT)]>
  (<["exclude" := JArray (map JString (exclude DEFAULT))]>
  (<["allowedRootMd" := JArray (map JString (allowedRootMd DEFAULT))]>
  (<["warnRootMd" := JBool (warnRootMdFlag DEFAULT)]> ∅)))).

(** The own enumerable properties an object spread copies from [v]:
    those of an object, the elements of an array and the characters of a
    string under their indices, none of the other values. *)
Definition ownProperties (v : Json) : gmap string Json :=
  match v with
  | JObject props => props
  | JArray items => list_to_map (imap (fun i x => (pretty i, x)) items)
  | JString s =>
      list_to_map (imap (fun i c => (pretty i, JString (String c "")))
                     (list_ascii_of_string s))
  | _ => ∅
  end.

(** [{ ...base, ...v }] *)
Definition spread (base : gmap string Json) (v : Json) : gmap string Json :=
  ownProperties v ∪ base.

(** [v.key] for a key no prototype has: the outer [None] is the
    [TypeError] for [null], the inner one is [undefined]. *)
Definition getMember (v : Json) (key : string) : option (option Json) :=
  match v with
  | JNull => None
  | JObject props => Some (props !! key)
  | _ => Some None
  end.

(** [cfg && typeof cfg === 'object'] for a value [cfg]: objects and
    arrays pass, [null] is falsy, the other values have another type. *)
Definition isObjectValue (cfg : Json) : bool :=
  match cfg with
  | JObject _ => true
  | JArray _ => true
  | _ => false
  end.

(** The names of the rc files, in the order they are tried. *)
Definition rcPaths : list string :=
  [".docs-index-keeper.json"; ".docsindexkeeperrc.json"].

Section Loader.

Context `{Host} `{JsonHost}.

(** [JSON.parse(readFileSync(p, 'utf-8'))] inside a [try] whose [catch]
    takes every exception: [None] when it throws. *)
Definition tryParseFile (p : string) : M (option Json) :=
  fun w => match readFileSync p w with
           | Ok text w' => Ok (jsonParse text) w'
           | Throw _ w' => Ok None w'
           end.

(** The first part of [loadConfig]: the configuration [package.json]
    gives, or [None] when control gets past the [if]. *)
Definition fromPackageJson (root : string) : M (option (gmap string Json)) :=
  let pkgPath := join root "package.json" in
  let* found := existsSync pkgPath in
  if found
  then
    let* parsed := tryParseFile pkgPath in
    match parsed with
    | Some pkg =>
        match getMember pkg "docsIndexKeeper" with
        | Some (Some cfg) =>
            if isObjectValue cfg
            then ret (Some (spread defaultObject cfg))
            else ret None
        | Some None => ret None
        | None => ret None
        end
    | None => ret None
    end
  else ret None.

(** The loop over the rc files: the configuration the first file that
    exists gives, or [None] when the loop ends or is left by [break]. *)
Fixpoint fromRcFiles (root : string) (paths : list string)
  : M (option (gmap string Json)) :=
  match paths with
  | [] => ret None
  | rc :: rest =>
      let p := join root rc in
      let* found := existsSync p in
      if found
      then
        let* parsed := tryParseFile p in
        match parsed with
        | Some cfg => ret (Some (spread defaultObject cfg))
        | None => ret None
        end
      else fromRcFiles root rest
  end.

(** [loadConfig] *)
Definition loadConfig (root : string) : M (gmap string Json) :=
  let* fromPkg := fromPackageJson root in
  match fromPkg with
  | Some cfg => ret cfg
  | None =>
      let* fromRc := fromRcFiles root rcPaths in
      match fromRc with
      | Some cfg => ret cfg
      | None => ret defaultObject
      end
  end.

End Loader.

(** [s] between double quotes. *)
Definition quoted (s : string) : string :=
  String dquote s ++ String dquote "".

(** The documents of the test [prefers package.json over rc file]. *)
Definition packageJsonText : string :=
  "{" ++ quoted "docsIndexKeeper" ++ ":{" ++ quoted "docsDir" ++ ":"
  ++ quoted "from-pkg" ++ "}}".

Definition rcText : string :=
  "{" ++ quoted "docsDir" ++ ":" ++ quoted "from-rc" ++ "}".

Definition fromPkgObject : gmap string Json :=
  <["docsDir" := JString "from-pkg"]> ∅.

Definition fromRcObject : gmap string Json :=
  <["docsDir" := JString "from-rc"]> ∅.

(** A [JSON.parse] for the documents of the examples; other texts are
    not covered by this host and are reported as a syntax error. *)
Definition parseKnown : JsonHost :=
  {| jsonParse := fun text =>
       if String.eqb text packageJsonText
       then Some (JObject (<["docsIndexKeeper" := JObject fromPkgObject]> ∅))
       else if String.eqb text rcText
            then Some (JObject fromRcObject)
            else None |}.

(** A repository with a [package.json] that has the configuration, and
    with the first rc file. *)
Definition repoWithPackageJson : World :=
  worldWith (<["/repo/package.json" := packageJsonText]>
             (<["/repo/.docs-index-keeper.json" := rcText]> ∅)).

(** A repository whose first rc file is not JSON and whose second rc
    file is. *)
Definition repoWithBrokenRc : World :=
  worldWith (<["/repo/.docs-index-keeper.json" := "{ docsDir"]>
             (<["/repo/.docsindexkeeperrc.json" := rcText]> ∅)).

(** What [existsSync(p)] answers in [w]. *)
Definition existsIn (w : World) (p : string) : bool :=
  bool_decide (is_Some (files w !! p))
  || bool_decide (is_Some (unreadable w !! p)).

(** A repository with the index of the test suite and a document whose
    name has parentheses. *)
Definition repoWithParentheses : World :=
  worldWith (<["/repo/docs/README.md" := indexWithSentinel]>
             (<["/repo/docs/notes (old).md" := "# Old notes" ++ nl]> ∅)).

Definition rowNotesOld : IndexRow :=
  {| title := "notes (old)";
     path := "notes (old).md";
     purpose := Some "Old notes" |}.

(** The index after one [update] and after two. *)
Definition indexWithNotes : string :=
"# Doc index
| Doc | Purpose |
|-----|---------|
| [notes (old)](notes (old).md) | Old notes |
| [archive/](archive/) | Historical |
".

Definition indexWithNotesTwice : string :=
"# Doc index
| Doc | Purpose |
|-----|---------|
| [notes (old)](notes (old).md) | Old notes |
| [notes (old)](notes (old).md) | Old notes |
| [archive/](archive/) | Historical |
".

Definition repoAfterNotes : World :=
  world_of (update (H := plainHost) "/repo" testConfig
              (Some "docs/notes (old).md") repoWithParentheses).

Definition repoAfterNotesTwice : World :=
  world_of (update (H := plainHost) "/repo" testConfig
              (Some "docs/notes (old).md") repoAfterNotes).

(** An index that lists [a.md], and a repository with that index and a
    document whose name has a bracket, a parenthesis and a bar. *)
Definition indexWithA : string :=
"# Doc index
| Doc | Purpose |
|-----|---------|
| [a](a.md) | A |
| [archive/](archive/) | Historical |
".

Definition indexWithAUpdated : string :=
"# Doc index
| Doc | Purpose |
|-----|---------|
| [a](a.md) | A |
| [t](a.md) | y](t](a.md) | y.md) | T |
| [archive/](archive/) | Historical |
".

Definition repoWithBrackets : World :=
  worldWith (<["/repo/docs/README.md" := indexWithA]>
             (<["/repo/docs/t](a.md) | y.md" := "# T" ++ nl]> ∅)).

Definition rowWithBrackets : IndexRow :=
  {| title := "t](a.md) | y";
     path := "t](a.md) | y.md";
     purpose := Some "T" |}.

Definition repoWithBracketsUpdated : World :=
  world_of (update (H := plainHost) "/repo" testConfig
              (Some "docs/t](a.md) | y.md") repoWithBrackets).

(** * Properties *)

(** ** Facts about the string primitives *)

#[local] Arguments append !_ _ / : simpl nomatch.

Module JSFacts.

Lemma length_append (a b : string) :
  String.length (a ++ b) = (String.length a + String.length b)%nat.
Proof. induction a as [|c a IH]; simpl; [reflexivity | now rewrite IH]. Qed.

Lemma append_assoc (a b c : string) : (a ++ b) ++ c = a ++ (b ++ c).
Proof. induction a as [|x a IH]; simpl; [reflexivity | now rewrite IH]. Qed.

Lemma append_empty_r (a : string) : a ++ "" = a.
Proof. induction a as [|x a IH]; simpl; [reflexivity | now rewrite IH]. Qed.

Lemma str_take_drop (n : nat) (s : string) : str_take n s ++ str_drop n s = s.
Proof.
  revert s; induction n as [|n IH]; intros [|c s]; simpl; try reflexivity.
  now rewrite IH.
Qed.

Lemma length_str_take (n : nat) (s : string) :
  (n <= String.length s)%nat -> String.length (str_take n s) = n.
Proof.
  revert s; induction n as [|n IH]; intros [|c s]; simpl; intros Hn;
    try reflexivity; try lia.
  rewrite IH; [reflexivity | lia].
Qed.

Lemma length_str_drop (n : nat) (s : string) :
  String.length (str_drop n s) = (String.length s - n)%nat.
Proof.
  revert s; induction n as [|n IH]; intros [|c s]; simpl; try reflexivity.
  apply IH.
Qed.

Lemma str_drop_append (a b : string) : str_drop (String.length a) (a ++ b) = b.
Proof. induction a as [|c a IH]; simpl; [now destruct b | exact IH]. Qed.

Lemma str_take_append (a b : string) : str_take (String.length a) (a ++ b) = a.
Proof.
  induction a as [|c a IH]; simpl; [now destruct b | now rewrite IH].
Qed.

(** [startsWith] is the prefix relation. *)
Lemma startsWith_spec (pre s : string) :
  startsWith pre s = true <-> exists r, s = pre ++ r.
Proof.
  revert s; induction pre as [|a pre IH]; intros s; simpl.
  - split; [intros _; now exists s | reflexivity].
  - destruct s as [|b s].
    + split; [discriminate | intros [r Hr]; discriminate].
    + rewrite andb_true_iff, Ascii.eqb_eq, IH. split.
      * intros [-> [r ->]]. now exists r.
      * intros [r Hr]. injection Hr as -> ->. split; [reflexivity | now exists r].
Qed.

Lemma startsWith_app (pre r : string) : startsWith pre (pre ++ r) = true.
Proof. apply startsWith_spec. now exists r. Qed.

(** Where [find] finds something. *)
Lemma find_bounds (pat s : string) (i j : nat) :
  find pat s i = Some j -> (i <= j <= i + String.length s)%nat.
Proof.
  revert i; induction s as [|c s IH]; intros i; simpl.
  - destruct (startsWith pat ""); [|discriminate].
    intros [= <-]. lia.
  - destruct (startsWith pat (String c s)).
    + intros [= <-]. lia.
    + intros Hf. apply IH in Hf. lia.
Qed.

Lemma clamp_le (s : string) (i : Z) : (clamp s i <= String.length s)%nat.
Proof. unfold clamp. lia. Qed.

(** [indexOf] answers [-1] or an offset inside the subject. *)
Lemma indexOfFrom_range (pat s : string) (from : Z) :
  indexOfFrom pat s from = -1
  \/ 0 <= indexOfFrom pat s from <= Z.of_nat (String.length s).
Proof.
  unfold indexOfFrom.
  destruct (find pat (str_drop (clamp s from) s) (clamp s from)) as [j|] eqn:Hf;
    [right | now left].
  apply find_bounds in Hf. rewrite length_str_drop in Hf.
  pose proof (clamp_le s from). lia.
Qed.

Lemma sliceIndex_nonneg (s : string) (i : Z) :
  0 <= i <= Z.of_nat (String.length s) -> sliceIndex s i = Z.to_nat i.
Proof.
  intros Hi. unfold sliceIndex, clamp.
  destruct (i <? 0) eqn:Hneg; [apply Z.ltb_lt in Hneg; lia | lia].
Qed.

Lemma slice_prefix (s : string) (i : Z) :
  0 <= i <= Z.of_nat (String.length s) ->
  slice s 0 i = str_take (Z.to_nat i) s.
Proof.
  intros Hi. unfold slice.
  rewrite (sliceIndex_nonneg s i Hi), (sliceIndex_nonneg s 0) by lia.
  simpl. now rewrite Nat.sub_0_r.
Qed.

Lemma sliceFrom_suffix (s : string) (i : Z) :
  0 <= i <= Z.of_nat (String.length s) ->
  sliceFrom s i = str_drop (Z.to_nat i) s.
Proof. intros Hi. unfold sliceFrom. now rewrite sliceIndex_nonneg. Qed.

End JSFacts.

Import JSFacts.

(** ** Row insertion *)

Lemma insertIdx_range (readme sentinelPattern : string) :
  0 <= insertIdx readme sentinelPattern <= Z.of_nat (String.length readme).
Proof.
  unfold insertIdx, indexOf.
  set (blank := indexOfFrom (nl ++ nl) readme (indexOfFrom headerRow readme 0)).
  pose proof (indexOfFrom_range sentinelPattern readme 0) as Hs.
  pose proof (indexOfFrom_range (nl ++ nl) readme
                (indexOfFrom headerRow readme 0)) as Hb.
  fold blank in Hb.
  destruct (Z.eqb_spec (indexOfFrom sentinelPattern readme 0) (-1)) as [Es | Es].
  - destruct (Z.eqb_spec blank (-1)); lia.
  - destruct (Z.eqb_spec (indexOfFrom sentinelPattern readme 0) (-1)); lia.
Qed.

(** [insertRows] cuts the document at [insertIdx] and puts the rendered
    rows, joined by line feeds and followed by one line feed, in between. *)
Lemma insertRows_splice (readme : string) (newRows : list IndexRow)
    (sentinelPattern : string) :
  insertRows readme newRows sentinelPattern
  = str_take (Z.to_nat (insertIdx readme sentinelPattern)) readme
    ++ joinLines (map renderRow newRows) ++ nl
    ++ str_drop (Z.to_nat (insertIdx readme sentinelPattern)) readme.
Proof.
  unfold insertRows.
  pose proof (insertIdx_range readme sentinelPattern) as Hr.
  now rewrite slice_prefix, sliceFrom_suffix.
Qed.

(** The sentinel wins when it occurs. *)
Lemma insertIdx_sentinel (readme sentinelPattern : string) :
  indexOf sentinelPattern readme <> -1 ->
  insertIdx readme sentinelPattern = indexOf sentinelPattern readme.
Proof.
  intros Hs. unfold insertIdx.
  destruct (Z.eqb_spec (indexOf sentinelPattern readme) (-1)); [contradiction|].
  destruct (Z.eqb_spec (indexOf sentinelPattern readme) (-1)); [contradiction|].
  reflexivity.
Qed.


(** Without either, the end of the document. *)
Lemma insertIdx_end (readme sentinelPattern : string) :
  indexOf sentinelPattern readme = -1 ->
  indexOfFrom (nl ++ nl) readme (indexOf headerRow readme) = -1 ->
  insertIdx readme sentinelPattern = Z.of_nat (String.length readme).
Proof. intros Hs Hb. unfold insertIdx. now rewrite Hs, Hb. Qed.

(** C6, at a document without header row: the claim puts the new rows at
    the very end of a document that has neither the sentinel nor a blank
    line after a header row.  [plainDocument] has no sentinel and no
    header row at all, and [insertRows] writes the row at offset 5, the
    first blank line of the document, in the middle of the text, and not
    at the end (offset 11). *)
Theorem insertRows_without_header_row :
  indexOf defaultSentinel plainDocument = -1
  /\ indexOf headerRow plainDocument = -1
  /\ insertIdx plainDocument defaultSentinel = 5
  /\ Z.of_nat (String.length plainDocument) = 11
  /\ insertRows plainDocument [rowB] defaultSentinel
     = "intro| [b](b.md) | Guide B |" ++ nl ++ nl ++ nl ++ "body"
  /\ insertRows plainDocument [rowB] defaultSentinel
     <> plainDocument ++ renderRow rowB ++ nl.
Proof. repeat split; try (vm_compute; reflexivity). vm_compute. discriminate. Qed.

(** C10: [insertRows] with no rows is not the identity.  For every
    document and sentinel it returns the document with one line feed put in
    at the insertion offset, which differs from the document. *)
Theorem insertRows_no_rows_adds_line_feed (readme sentinelPattern : string) :
  insertRows readme [] sentinelPattern <> readme
  /\ exists before after : string,
       readme = before ++ after
       /\ Z.of_nat (String.length before) = insertIdx readme sentinelPattern
       /\ insertRows readme [] sentinelPattern = before ++ nl ++ after.
Proof.
  pose proof (insertIdx_range readme sentinelPattern) as Hr.
  rewrite insertRows_splice. simpl joinLines.
  set (k := Z.to_nat (insertIdx readme sentinelPattern)).
  split.
  - intros Heq. apply (f_equal String.length) in Heq.
    rewrite <- (str_take_drop k readme) in Heq at 3.
    rewrite !length_append in Heq. simpl in Heq. lia.
  - exists (str_take k readme), (str_drop k readme). split; [|split].
    + symmetry. apply str_take_drop.
    + rewrite length_str_take; subst k; lia.
    + reflexivity.
Qed.

(** ** Staged-file resolver *)

(** C7, as the code has it: an override that is not the empty string is
    the only source.  The result is its lines, trimmed, those that end in
    [.md]; the world is left as it was, so git is not run and neither the
    environment nor anything else matters. *)
Theorem getStagedMdFiles_override (raw : string) (w : World) :
  raw <> "" ->
  getStagedMdFiles (Some raw) w = Ok (mdLines raw) w.
Proof.
  intros Hraw. unfold getStagedMdFiles, bind, getEnvStaged, nullish, truthy.
  destruct (String.eqb_spec raw ""); [contradiction | reflexivity].
Qed.

Lemma getStagedMdFiles_override_witness :
  getStagedMdFiles (Some ("docs/a.md" ++ nl ++ "README.md")) emptyWorld
  = Ok ["docs/a.md"; "README.md"] emptyWorld.
Proof.
  apply (getStagedMdFiles_override ("docs/a.md" ++ nl ++ "README.md") emptyWorld).
  discriminate.
Defined.

(** C7 fails for the empty override: the test [stagedOverride ??
    envOverride] is a truthiness test, the empty string does not pass it,
    and git is run.  The claim wants the empty list and no query. *)
Lemma getStagedMdFiles_empty_override_runs_git :
  mdLines "" = []
  /\ exists w',
       getStagedMdFiles (Some "") worldWithGit = Ok ["docs/x.md"] w'
       /\ git_queries worldWithGit = 0%nat
       /\ git_queries w' = 1%nat.
Proof. split; [reflexivity | eexists; repeat split]. Qed.

(** ** Doc-set filter *)

Lemma isStagedDoc_spec (config : DocsIndexKeeperConfig) (p : string) :
  isStagedDoc config p = true <-> KeptCandidate config p.
Proof.
  unfold isStagedDoc, KeptCandidate.
  set (docsPrefix := docsDir config ++ "/").
  destruct (startsWith docsPrefix p) eqn:Hpre; simpl.
  - apply startsWith_spec in Hpre as [rel ->].
    rewrite sliceFrom_suffix by (rewrite length_append; lia).
    rewrite Nat2Z.id, str_drop_append.
    destruct (existsb _ (exclude config)) eqn:Hex.
    + split; [discriminate |]. intros [rel' [Heq Hall]].
      assert (rel' = rel) as ->.
      { apply (f_equal (str_drop (String.length docsPrefix))) in Heq.
        now rewrite !str_drop_append in Heq. }
      apply existsb_exists in Hex as [e [Hin He]].
      destruct (Hall e Hin) as [Hne Hnp].
      apply orb_true_iff in He as [He | He].
      * apply String.eqb_eq in He. contradiction.
      * apply startsWith_spec in He. contradiction.
    + split; [intros _ | reflexivity]. exists rel. split; [reflexivity |].
      intros e Hin.
      assert (String.eqb rel e || startsWith e rel = false) as He.
      { destruct (String.eqb rel e || startsWith e rel) eqn:E; [|reflexivity].
        rewrite <- Hex. symmetry. apply existsb_exists. now exists e. }
      apply orb_false_iff in He as [He1 He2]. split.
      * now apply String.eqb_neq.
      * intros Hp. apply startsWith_spec in Hp. congruence.
  - split; [discriminate |]. intros [rel [-> _]].
    subst docsPrefix. now rewrite startsWith_app in Hpre.
Qed.

(** C4, as the code has it: the filter goes through the candidates in
    order, keeps exactly those that start with [docsDir + "/"] and whose
    remainder neither is nor starts with an entry of [exclude], and hands
    each kept candidate on unchanged, with its [docsDir + "/"] prefix. *)
Theorem getStagedDocs_keeps_candidates_unchanged
    (config : DocsIndexKeeperConfig) :
  getStagedDocs [] config = []
  /\ (forall p staged, KeptCandidate config p ->
        getStagedDocs (p :: staged) config = p :: getStagedDocs staged config)
  /\ (forall p staged, ~ KeptCandidate config p ->
        getStagedDocs (p :: staged) config = getStagedDocs staged config)
  /\ (forall p staged, In p (getStagedDocs staged config) ->
        In p staged /\ startsWith (docsDir config ++ "/") p = true).
Proof.
  split; [reflexivity |]. split; [|split].
  - intros p staged Hk. apply isStagedDoc_spec in Hk.
    unfold getStagedDocs. simpl. now rewrite Hk.
  - intros p staged Hk. unfold getStagedDocs. simpl.
    destruct (isStagedDoc config p) eqn:E; [|reflexivity].
    apply isStagedDoc_spec in E. contradiction.
  - intros p staged Hin. unfold getStagedDocs in Hin.
    apply filter_In in Hin as [Hin Hk]. split; [exact Hin |].
    apply isStagedDoc_spec in Hk as [rel [-> _]]. apply startsWith_app.
Qed.

(** C4 fails on the input of the test suite: the claim has the filter
    return the docs-relative path [foo.md]; it returns [docs/foo.md]. *)
Lemma getStagedDocs_keeps_prefix :
  getStagedDocs ["docs/foo.md"; "docs/README.md"; "docs/archive/old.md";
                 "other/bar.md"] testConfig = ["docs/foo.md"]
  /\ getStagedDocs ["docs/foo.md"; "docs/README.md"; "docs/archive/old.md";
                    "other/bar.md"] testConfig <> ["foo.md"].
Proof. split; [reflexivity | discriminate]. Qed.

(** ** Table parser *)

Lemma isTableLine_startsWith (line : string) :
  isTableLine line = startsWith "|" line.
Proof.
  unfold isTableLine. destruct (startsWith "|" line) eqn:Hs; [|reflexivity].
  destruct line as [|c l]; [discriminate |]. simpl in Hs.
  unfold includes, indexOf, indexOfFrom. simpl. now rewrite Hs.
Qed.

(** C5, as the code has it: outside the table region a line opens the
    region exactly when it starts with [|]; the second test of the
    condition, [line.includes('|')], holds for every such line. *)
Theorem parseLine_enters_table_on_leading_pipe
    (rs : list IndexRow) (line : string) :
  isTableLine line = startsWith "|" line
  /\ exists st',
       parseLine {| inTable := false; rows := rs |} line = Next st'
       /\ inTable st' = startsWith "|" line.
Proof.
  split; [apply isTableLine_startsWith |].
  unfold parseLine. rewrite isTableLine_startsWith.
  destruct (startsWith "|" line); simpl.
  - destruct (linkMatch line) as [[t p]|]; eexists; split; reflexivity.
  - eexists; split; reflexivity.
Qed.

(** C5 fails on the line [|]: nothing follows its first character, so it
    has no second [|], and still it opens the table region.  The line
    after it then ends the scan, and a table further down is not read. *)
Lemma single_pipe_line_opens_table :
  startsWith "|" "|" = true
  /\ includes "|" (sliceFrom "|" 1) = false
  /\ parseLine {| inTable := false; rows := [] |} "|"
     = Next {| inTable := true; rows := [] |}
  /\ parseTable ("|" ++ nl ++ "text" ++ nl ++ "| [a](a.md) | A |") = []
  /\ parseTable ("text" ++ nl ++ "| [a](a.md) | A |")
     = [{| title := "a"; path := "a.md"; purpose := None |}].
Proof. repeat split. Qed.

(** ** Effects of the engine *)

Create HintDb effects.

Lemma readOnly_ret {A} (a : A) : readOnly (ret a).
Proof. intros w. reflexivity. Qed.

Lemma readOnly_throw {A} (e : exn) : readOnly (@throw A e).
Proof. intros w. reflexivity. Qed.

Lemma readOnly_bind {A B} (m : M A) (k : A -> M B) :
  readOnly m -> (forall a, readOnly (k a)) -> readOnly (bind m k).
Proof.
  intros Hm Hk w. unfold bind. specialize (Hm w).
  destruct (m w) as [a w1 | e w1]; simpl in Hm; subst w1; [apply Hk | reflexivity].
Qed.

Lemma readOnly_existsSync (p : string) : readOnly (existsSync p).
Proof. intros w. reflexivity. Qed.

Lemma readOnly_readFileSync (p : string) : readOnly (readFileSync p).
Proof.
  intros w. unfold readFileSync.
  destruct (files w !! p); [reflexivity |].
  now destruct (unreadable w !! p).
Qed.

Lemma readOnly_getEnvStaged : readOnly getEnvStaged.
Proof. intros w. reflexivity. Qed.

#[local] Hint Resolve readOnly_ret readOnly_throw readOnly_existsSync
  readOnly_readFileSync readOnly_getEnvStaged : effects.

(** Takes a computation apart along its binds and branches. *)
Ltac effects_step :=
  first
    [ progress (auto with effects)
    | apply readOnly_bind; [| intros ?]
    | match goal with
      | |- readOnly (if ?b then _ else _) => destruct b
      | |- readOnly (match ?x with _ => _ end) => destruct x
      end ].

Lemma sameDisk_refl (w : World) : sameDisk w w.
Proof. split; reflexivity. Qed.

Lemma sameDisk_trans (w1 w2 w3 : World) :
  sameDisk w1 w2 -> sameDisk w2 w3 -> sameDisk w1 w3.
Proof. intros [Hf Hw] [Hf' Hw']. split; congruence. Qed.

Lemma readOnly_writesNothing {A} (m : M A) : readOnly m -> writesNothing m.
Proof. intros Hm w. rewrite Hm. apply sameDisk_refl. Qed.

Lemma writesNothing_bind {A B} (m : M A) (k : A -> M B) :
  writesNothing m -> (forall a, writesNothing (k a)) -> writesNothing (bind m k).
Proof.
  intros Hm Hk w. unfold bind. specialize (Hm w).
  destruct (m w) as [a w1 | e w1]; simpl in Hm; [| exact Hm].
  eapply sameDisk_trans; [exact Hm | apply Hk].
Qed.

Lemma writesNothing_execGitDiffCached : writesNothing execGitDiffCached.
Proof.
  intros w. unfold execGitDiffCached.
  destruct (git_staged w); split; reflexivity.
Qed.

Lemma writesNothing_consoleWarn (msg : string) : writesNothing (consoleWarn msg).
Proof. intros w. split; reflexivity. Qed.

Lemma writesNothing_getStagedMdFiles (stagedOverride : option string) :
  writesNothing (getStagedMdFiles stagedOverride).
Proof.
  unfold getStagedMdFiles.
  apply writesNothing_bind; [apply readOnly_writesNothing; auto with effects |].
  intros envOverride.
  destruct (nullish stagedOverride envOverride) as [raw|];
    [destruct (truthy raw) |];
    first
      [ solve [apply readOnly_writesNothing; auto with effects]
      | apply writesNothing_bind;
        [apply writesNothing_execGitDiffCached
        | intros out; apply readOnly_writesNothing; auto with effects] ].
Qed.

Lemma getStagedMdFiles_keeps_inputs (stagedOverride : option string) (w : World) :
  sameInputs w (world_of (getStagedMdFiles stagedOverride w)).
Proof.
  unfold sameInputs, getStagedMdFiles, bind, getEnvStaged, execGitDiffCached.
  destruct (nullish stagedOverride (env_staged w)) as [raw|];
    [destruct (truthy raw) |]; try (split; reflexivity);
    destruct (git_staged w) eqn:Hgit; split; simpl; congruence.
Qed.

(** The resolver, case by case. *)
Lemma getStagedMdFiles_cases (stagedOverride : option string) (w : World) :
  getStagedMdFiles stagedOverride w
  = match nullish stagedOverride (env_staged w), git_staged w with
    | Some raw, Some out =>
        if truthy raw then Ok (mdLines raw) w
        else Ok (mdLines out) (countGitQuery w)
    | Some raw, None =>
        if truthy raw then Ok (mdLines raw) w
        else Throw GitFailed (countGitQuery w)
    | None, Some out => Ok (mdLines out) (countGitQuery w)
    | None, None => Throw GitFailed (countGitQuery w)
    end.
Proof.
  unfold getStagedMdFiles, bind, getEnvStaged, execGitDiffCached.
  destruct (nullish stagedOverride (env_staged w)) as [raw|];
    [destruct (truthy raw) |]; destruct (git_staged w); reflexivity.
Qed.

(** The resolver answers from the override, the environment and git
    alone. *)
Lemma getStagedMdFiles_same_inputs (stagedOverride : option string)
    (w v : World) (staged : list string) (w1 : World) :
  sameInputs w v ->
  getStagedMdFiles stagedOverride w = Ok staged w1 ->
  exists v1, getStagedMdFiles stagedOverride v = Ok staged v1
             /\ sameDisk v v1 /\ sameInputs v v1.
Proof.
  intros [Henv Hgit]. rewrite !getStagedMdFiles_cases, Henv, Hgit.
  destruct (nullish stagedOverride (env_staged w)) as [raw|];
    [destruct (truthy raw) |]; destruct (git_staged w); try discriminate;
    intros [= <- _]; eexists; (split; [reflexivity |]);
    split; split; reflexivity.
Qed.

(** [warnRootMd] returns, and touches nothing but the console. *)
Lemma warnRootMd_returns (staged : list string) (config : DocsIndexKeeperConfig)
    (w : World) :
  exists w', warnRootMd staged config w = Ok tt w'
             /\ sameDisk w w'
             /\ env_staged w' = env_staged w
             /\ git_staged w' = git_staged w
             /\ git_queries w' = git_queries w.
Proof.
  unfold warnRootMd.
  destruct (negb (warnRootMdFlag config)).
  - exists w. repeat split.
  - destruct (List.filter _ (List.filter _ staged)).
    + exists w. repeat split.
    + eexists. repeat split.
Qed.

Lemma writesNothing_warnRootMd (staged : list string)
    (config : DocsIndexKeeperConfig) :
  writesNothing (warnRootMd staged config).
Proof.
  intros w. destruct (warnRootMd_returns staged config w) as [w' [-> [Hd _]]].
  exact Hd.
Qed.

Section EffectsWithHost.

Context `{Host}.

Lemma readOnly_getFirstHeading (root filePath : string) :
  readOnly (getFirstHeading root filePath).
Proof. unfold getFirstHeading. repeat effects_step. Qed.

Lemma readOnly_stripDocsDir (config : DocsIndexKeeperConfig) (p : string) :
  readOnly (stripDocsDir config p).
Proof. unfold stripDocsDir. repeat effects_step. Qed.

Hint Resolve readOnly_getFirstHeading readOnly_stripDocsDir : effects.

Lemma readOnly_computeNewRowsLoop (root : string) (stagedDocs : list string)
    (config : DocsIndexKeeperConfig) :
  forall existingPaths toAdd,
    readOnly (computeNewRowsLoop root stagedDocs existingPaths config toAdd).
Proof.
  induction stagedDocs as [|p rest IH]; intros existingPaths toAdd; simpl.
  - auto with effects.
  - apply readOnly_bind; [auto with effects | intros path0].
    destruct (bool_decide (path0 ∈ existingPaths)); [apply IH |].
    apply readOnly_bind; [auto with effects | intros heading]. apply IH.
Qed.

Lemma readOnly_computeNewRows (root : string) (stagedDocs : list string)
    (existingPaths : gset string) (config : DocsIndexKeeperConfig) :
  readOnly (computeNewRows root stagedDocs existingPaths config).
Proof. apply readOnly_computeNewRowsLoop. Qed.

Lemma readOnly_checkLoop (stagedDocs : list string) (existingPaths : gset string)
    (config : DocsIndexKeeperConfig) :
  readOnly (checkLoop stagedDocs existingPaths config).
Proof.
  induction stagedDocs as [|p rest IH]; simpl.
  - auto with effects.
  - apply readOnly_bind; [auto with effects | intros path0].
    destruct (negb (bool_decide (path0 ∈ existingPaths))); [auto with effects | apply IH].
Qed.

Lemma writesNothing_check (root : string) (config : DocsIndexKeeperConfig)
    (stagedOverride : option string) :
  writesNothing (check root config stagedOverride).
Proof.
  unfold check.
  apply writesNothing_bind; [apply writesNothing_getStagedMdFiles | intros staged].
  apply readOnly_writesNothing.
  destruct (length (getStagedDocs staged config) =? 0)%nat; [auto with effects |].
  apply readOnly_bind; [auto with effects | intros found].
  destruct (negb found); [auto with effects |].
  apply readOnly_bind; [auto with effects | intros readme].
  apply readOnly_checkLoop.
Qed.

Lemma writesWhenUpdated_noChange (p : string) :
  writesWhenUpdated p (ret noChange).
Proof. intros w. simpl. apply sameDisk_refl. Qed.

Lemma writesWhenUpdated_bind {A} (p : string) (m : M A)
    (k : A -> M UpdateResult) :
  writesNothing m -> (forall a, writesWhenUpdated p (k a)) ->
  writesWhenUpdated p (bind m k).
Proof.
  intros Hm Hk w. unfold bind. specialize (Hm w).
  destruct (m w) as [a w1 | e w1]; simpl in Hm; [| exact Hm].
  specialize (Hk a w1). destruct Hm as [Hf Hw].
  destruct (k a w1) as [r w2 | e w2].
  - destruct (updated r).
    + destruct Hk as [content [Hw2 Hf2]]. exists content. split; congruence.
    + eapply sameDisk_trans; [split; eassumption | exact Hk].
  - eapply sameDisk_trans; [split; eassumption | exact Hk].
Qed.

Lemma writesWhenUpdated_update (root : string) (config : DocsIndexKeeperConfig)
    (stagedOverride : option string) :
  writesWhenUpdated (join root (indexFile config))
                    (update root config stagedOverride).
Proof.
  unfold update.
  apply writesWhenUpdated_bind; [apply writesNothing_getStagedMdFiles |].
  intros staged.
  destruct (length staged =? 0)%nat; [apply writesWhenUpdated_noChange |].
  apply writesWhenUpdated_bind; [apply writesNothing_warnRootMd | intros _].
  destruct (length (getStagedDocs staged config) =? 0)%nat;
    [apply writesWhenUpdated_noChange |].
  apply writesWhenUpdated_bind;
    [apply readOnly_writesNothing; auto with effects | intros found].
  destruct (negb found); [apply writesWhenUpdated_noChange |].
  apply writesWhenUpdated_bind;
    [apply readOnly_writesNothing; auto with effects | intros readme].
  apply writesWhenUpdated_bind;
    [apply readOnly_writesNothing, readOnly_computeNewRows | intros res].
  destruct (length (fst res) =? 0)%nat; [apply writesWhenUpdated_noChange |].
  intros w. simpl. eexists. split; reflexivity.
Qed.

(** C9: [check] writes no file, whatever it answers and also when it
    throws.  [update] writes the index file, once, exactly when it reports
    [updated = true]; when it reports [updated = false], and when it
    throws, the files are as they were and nothing has been written. *)
Theorem check_writes_nothing_update_writes_when_updated
    (root : string) (config : DocsIndexKeeperConfig)
    (stagedOverride : option string) (w : World) :
  (files (world_of (check root config stagedOverride w)) = files w
   /\ writes (world_of (check root config stagedOverride w)) = writes w)
  /\ match update root config stagedOverride w with
     | Ok r w' =>
         if updated r
         then exists content,
                writes w' = (writes w ++ [(join root (indexFile config), content)])%list
                /\ files w' = <[join root (indexFile config) := content]> (files w)
         else files w' = files w /\ writes w' = writes w
     | Throw _ w' => files w' = files w /\ writes w' = writes w
     end.
Proof.
  split.
  - apply writesNothing_check.
  - apply writesWhenUpdated_update.
Qed.

End EffectsWithHost.

(** ** Missing index file *)

Section MissingIndex.

Context `{Host}.

Lemma existsSync_missing (p : string) (w : World) :
  files w !! p = None -> unreadable w !! p = None ->
  existsSync p w = Ok false w.
Proof. intros Hp Hu. unfold existsSync. now rewrite Hp, Hu. Qed.

(** A path that exists and cannot be read. *)
Lemma existsSync_unreadable (p : string) (u : Unreadable) (w : World) :
  unreadable w !! p = Some u -> existsSync p w = Ok true w.
Proof.
  intros Hu. unfold existsSync. rewrite Hu.
  now destruct (bool_decide (is_Some (files w !! p))).
Qed.

Lemma readFileSync_unreadable (p : string) (u : Unreadable) (w : World) :
  files w !! p = None -> unreadable w !! p = Some u ->
  readFileSync p w = Throw (readError u) w.
Proof. intros Hp Hu. unfold readFileSync. now rewrite Hp, Hu. Qed.

(** The resolver and the warning leave the file system as it is. *)
Lemma getStagedMdFiles_unreadable (stagedOverride : option string) (w : World) :
  unreadable (world_of (getStagedMdFiles stagedOverride w)) = unreadable w.
Proof.
  rewrite getStagedMdFiles_cases.
  destruct (nullish stagedOverride (env_staged w)) as [raw|];
    [destruct (truthy raw) |]; destruct (git_staged w); reflexivity.
Qed.

Lemma warnRootMd_unreadable (staged : list string)
    (config : DocsIndexKeeperConfig) (w : World) :
  unreadable (world_of (warnRootMd staged config w)) = unreadable w.
Proof.
  unfold warnRootMd.
  destruct (negb (warnRootMdFlag config)); [reflexivity |].
  now destruct (List.filter _ (List.filter _ staged)).
Qed.

(** C8, as the code has it: when the index file does not exist and the
    staged-file resolver returns, [check] answers [true] and [update]
    answers [updated = false] with nothing added and writes nothing.
    Neither throws on account of the missing file: the one failure there
    can be is that of the staged-file resolver, which runs before the
    index file is looked at and whose error both pass on. *)
Theorem missing_index_is_no_change
    (root : string) (config : DocsIndexKeeperConfig)
    (stagedOverride : option string) (w : World) :
  files w !! join root (indexFile config) = None ->
  unreadable w !! join root (indexFile config) = None ->
  match getStagedMdFiles stagedOverride w with
  | Ok _ w1 =>
      check root config stagedOverride w = Ok true w1
      /\ exists w2,
           update root config stagedOverride w
           = Ok {| updated := false; added := [] |} w2
           /\ files w2 = files w /\ writes w2 = writes w
  | Throw e w1 =>
      check root config stagedOverride w = Throw e w1
      /\ update root config stagedOverride w = Throw e w1
  end.
Proof.
  intros Hmissing Hnone.
  pose proof (writesNothing_getStagedMdFiles stagedOverride w) as Hdisk.
  pose proof (getStagedMdFiles_unreadable stagedOverride w) as Hu.
  unfold check, update, bind.
  destruct (getStagedMdFiles stagedOverride w) as [staged w1 | e w1];
    simpl in Hdisk, Hu; [| split; reflexivity].
  destruct Hdisk as [Hf Hw].
  assert (files w1 !! join root (indexFile config) = None) as Hmissing1
      by now rewrite Hf.
  assert (unreadable w1 !! join root (indexFile config) = None) as Hnone1
      by now rewrite Hu.
  split.
  - destruct (length (getStagedDocs staged config) =? 0)%nat; [reflexivity |].
    now rewrite (existsSync_missing _ _ Hmissing1 Hnone1).
  - destruct (length staged =? 0)%nat; [now exists w1 |].
    pose proof (warnRootMd_unreadable staged config w1) as Hu2.
    destruct (warnRootMd_returns staged config w1) as [w2 [Hwarn [[Hf2 Hw2] _]]].
    rewrite Hwarn in Hu2 |- *. cbn [world_of] in Hu2.
    destruct (length (getStagedDocs staged config) =? 0)%nat.
    + exists w2. repeat split; congruence.
    + rewrite existsSync_missing by (rewrite ?Hf2, ?Hu2; assumption).
      exists w2. repeat split; congruence.
Qed.

End MissingIndex.

(** C8 fails where git fails: without index file, without override and
    without environment variable, with a git query that fails, [update]
    and [check] both throw the error of git instead of reporting no
    change. *)
Lemma missing_index_and_failing_git :
  files emptyWorld !! "/repo/docs/README.md" = None
  /\ unreadable emptyWorld !! "/repo/docs/README.md" = None
  /\ update (H := plainHost) "/repo" testConfig None emptyWorld
     = Throw GitFailed (countGitQuery emptyWorld)
  /\ check (H := plainHost) "/repo" testConfig None emptyWorld
     = Throw GitFailed (countGitQuery emptyWorld).
Proof. repeat split. Qed.

(** In a repository without index file [update] and [check] return. *)
Lemma missing_index_is_no_change_witness :
  check (H := plainHost) "/repo" testConfig (Some "docs/b.md") emptyWorld
  = Ok true emptyWorld
  /\ exists w2,
       update (H := plainHost) "/repo" testConfig (Some "docs/b.md") emptyWorld
       = Ok {| updated := false; added := [] |} w2
       /\ files w2 = files emptyWorld /\ writes w2 = writes emptyWorld.
Proof.
  apply (missing_index_is_no_change (H := plainHost) "/repo" testConfig
           (Some "docs/b.md") emptyWorld);
    reflexivity.
Defined.

(** ** Row diff *)

Section RowDiff.

Context `{Host}.

(** [getFirstHeading], case by case: the heading of a file that can be
    read, [null] for a path that does not exist, and the error of the
    read for a path that exists and cannot be read. *)
Lemma getFirstHeading_cases (root filePath : string) (w : World) :
  getFirstHeading root filePath w
  = match files w !! join root filePath with
    | Some content => Ok (headingOf content) w
    | None =>
        match unreadable w !! join root filePath with
        | Some u => Throw (readError u) w
        | None => Ok None w
        end
    end.
Proof.
  unfold getFirstHeading, bind, existsSync, readFileSync, headingOf.
  destruct (files w !! join root filePath) as [content|] eqn:Hfile; simpl.
  - rewrite Hfile. now destruct (headingMatch content).
  - destruct (unreadable w !! join root filePath) as [u|] eqn:Hu; simpl;
      [| reflexivity].
    now rewrite Hfile, Hu.
Qed.

(** [getFirstHeading] returns in the world it was called in, or throws
    the error of a read in that world. *)
Lemma getFirstHeading_outcome (root filePath : string) (w : World) :
  (exists heading, getFirstHeading root filePath w = Ok heading w)
  \/ (exists u, files w !! join root filePath = None
                /\ unreadable w !! join root filePath = Some u
                /\ getFirstHeading root filePath w = Throw (readError u) w).
Proof.
  rewrite getFirstHeading_cases.
  destruct (files w !! join root filePath) as [content|]; [left; eauto |].
  destruct (unreadable w !! join root filePath) as [u|]; [| left; eauto].
  right. now exists u.
Qed.

(** On a path that is a file or does not exist, [getFirstHeading]
    returns. *)
Lemma getFirstHeading_returns (root filePath : string) (w : World) :
  unreadable w !! join root filePath = None ->
  exists heading, getFirstHeading root filePath w = Ok heading w.
Proof.
  intros Hu. rewrite getFirstHeading_cases, Hu.
  destruct (files w !! join root filePath); eauto.
Qed.

Lemma stripDocsDir_cases (config : DocsIndexKeeperConfig) (p : string) (w : World) :
  (exists remove, regExpRemove ("^" ++ docsDir config ++ "/") = Some remove
                  /\ stripDocsDir config p w = Ok (remove p) w)
  \/ (regExpRemove ("^" ++ docsDir config ++ "/") = None
      /\ stripDocsDir config p w = Throw RegExpSyntaxError w).
Proof.
  unfold stripDocsDir.
  destruct (regExpRemove ("^" ++ docsDir config ++ "/")) as [remove|];
    [left; exists remove | right]; split; reflexivity.
Qed.

(** The loop only appends: what it returns is what it was given, then
    rows with paths that were not in the set and that differ from each
    other; the set it leaves has those paths added. *)
Lemma computeNewRowsLoop_spec (root : string) (config : DocsIndexKeeperConfig)
    (stagedDocs : list string) :
  forall (existingPaths : gset string) (acc : list IndexRow) (w : World)
         toAdd existingPaths' w',
    computeNewRowsLoop root stagedDocs existingPaths config acc w
    = Ok (toAdd, existingPaths') w' ->
    exists new,
      toAdd = (acc ++ new)%list
      /\ Forall (fun r => path r ∉ existingPaths) new
      /\ NoDup (map path new)
      /\ (forall x, x ∈ existingPaths' <-> x ∈ existingPaths \/ x ∈ map path new).
Proof.
  induction stagedDocs as [|p rest IH];
    intros existingPaths acc w toAdd existingPaths' w' Hrun; simpl in Hrun.
  - injection Hrun as <- <- _. exists []. rewrite app_nil_r.
    repeat split; try constructor; [tauto |].
    intros [Hx | Hx]; [exact Hx | inversion Hx].
  - unfold bind in Hrun at 1.
    destruct (stripDocsDir_cases config p w) as [[remove [_ Hs]] | [_ Hs]];
      rewrite Hs in Hrun; [| discriminate].
    destruct (bool_decide (remove p ∈ existingPaths)) eqn:Hin.
    + eapply IH; exact Hrun.
    + apply bool_decide_eq_false in Hin.
      unfold bind in Hrun at 1.
      destruct (getFirstHeading_outcome root p w)
        as [[heading Hh] | (u & _ & _ & Hh)];
        rewrite Hh in Hrun; [| discriminate].
      apply IH in Hrun as [new [-> [Hnew [Hnd Hset]]]].
      eexists (_ :: new). split; [now rewrite <- List.app_assoc |].
      split; [|split].
      * constructor; [exact Hin |].
        eapply Forall_impl; [exact Hnew |]. simpl. intros r Hr Hrin.
        apply Hr, elem_of_union. now right.
      * simpl. constructor; [| exact Hnd].
        intros Hdup. apply list_elem_of_fmap in Hdup as [r [Hr Hrin]].
        rewrite Forall_forall in Hnew. apply (Hnew r Hrin).
        apply elem_of_union. left. now apply elem_of_singleton.
      * intros x. rewrite Hset. simpl.
        rewrite elem_of_union, elem_of_singleton, elem_of_cons. tauto.
Qed.

(** With a [docsDir] from which a regular expression can be built, and
    with candidates each of which is a file or does not exist, the loop
    returns, and it leaves the world as it is. *)
Lemma computeNewRowsLoop_returns (root : string) (config : DocsIndexKeeperConfig)
    (remove : string -> string) (stagedDocs : list string) (w : World) :
  regExpRemove ("^" ++ docsDir config ++ "/") = Some remove ->
  (forall p, In p stagedDocs -> unreadable w !! join root p = None) ->
  forall (existingPaths : gset string) (acc : list IndexRow),
    exists toAdd existingPaths',
      computeNewRowsLoop root stagedDocs existingPaths config acc w
      = Ok (toAdd, existingPaths') w.
Proof.
  intros Hre. induction stagedDocs as [|p rest IH];
    intros Hread existingPaths acc; simpl.
  - eexists _, _. reflexivity.
  - assert (forall q, In q rest -> unreadable w !! join root q = None)
      as Hrest by (intros q Hq; apply Hread; now right).
    unfold bind at 1. unfold stripDocsDir. rewrite Hre. simpl.
    destruct (bool_decide (remove p ∈ existingPaths)); [now apply IH |].
    unfold bind at 1.
    destruct (getFirstHeading_returns root p w (Hread p (or_introl eq_refl)))
      as [heading ->].
    now apply IH.
Qed.

(** If the loop adds a row, the loop of [check] over the same candidates
    and the same set answers [false]. *)
Lemma checkLoop_false_when_rows_added (root : string)
    (config : DocsIndexKeeperConfig) (stagedDocs : list string) :
  forall (existingPaths : gset string) (acc : list IndexRow) (w wc : World)
         toAdd existingPaths' w',
    computeNewRowsLoop root stagedDocs existingPaths config acc w
    = Ok (toAdd, existingPaths') w' ->
    toAdd <> acc ->
    checkLoop stagedDocs existingPaths config wc = Ok false wc.
Proof.
  induction stagedDocs as [|p rest IH];
    intros existingPaths acc w wc toAdd existingPaths' w' Hrun Hne;
    simpl in Hrun.
  - injection Hrun as <- _ _. contradiction.
  - simpl. unfold bind in Hrun at 1. unfold bind at 1.
    destruct (stripDocsDir_cases config p w) as [[remove [Hre Hs]] | [_ Hs]];
      rewrite Hs in Hrun; [| discriminate].
    unfold stripDocsDir. rewrite Hre. simpl.
    destruct (bool_decide (remove p ∈ existingPaths)) eqn:Hin; simpl.
    + eapply IH; eassumption.
    + reflexivity.
Qed.

#[local] Arguments computeNewRows : simpl never.
#[local] Arguments insertRows : simpl never.
#[local] Arguments parseTable : simpl never.

(** What a run of [update] that returns has done: nothing, or all of its
    steps. *)
Lemma update_inv (root : string) (config : DocsIndexKeeperConfig)
    (stagedOverride : option string) (w : World) (r : UpdateResult) (w' : World) :
  update root config stagedOverride w = Ok r w' ->
  r = noChange
  \/ exists staged w1 w2 readme existingPaths',
       getStagedMdFiles stagedOverride w = Ok staged w1
       /\ sameDisk w w1
       /\ sameDisk w w2
       /\ sameInputs w w2
       /\ getStagedDocs staged config <> []
       /\ files w !! join root (indexFile config) = Some readme
       /\ computeNewRows root (getStagedDocs staged config)
            (pathSet (parseTable readme)) config w2
          = Ok (added r, existingPaths') w2
       /\ added r <> []
       /\ updated r = true
       /\ writeFileSync (join root (indexFile config))
            (insertRows readme (added r) defaultSentinel) w2 = Ok tt w'.
Proof.
  intros Hrun.
  pose proof (writesNothing_getStagedMdFiles stagedOverride w) as Hdisk.
  pose proof (getStagedMdFiles_keeps_inputs stagedOverride w) as Hin.
  unfold update, bind in Hrun.
  destruct (getStagedMdFiles stagedOverride w) as [staged w1 | e w1];
    [| discriminate].
  simpl in Hdisk, Hin.
  destruct (length staged =? 0)%nat; [injection Hrun as <- _; now left |].
  destruct (warnRootMd_returns staged config w1)
    as [w2 [Hwarn [Hdisk2 [Henv2 [Hgit2 _]]]]].
  assert (sameInputs w w2) as Hin2
      by (destruct Hin; split; congruence).
  rewrite Hwarn in Hrun.
  destruct (getStagedDocs staged config) as [|d ds] eqn:Hdocs;
    [injection Hrun as <- _; now left |].
  simpl in Hrun. unfold existsSync, readFileSync in Hrun. cbv beta in Hrun.
  destruct (files w2 !! join root (indexFile config)) as [readme|] eqn:Hidx;
    simpl in Hrun.
  2:{ destruct (unreadable w2 !! join root (indexFile config)) as [u|] eqn:Hu;
        simpl in Hrun; [| injection Hrun as <- _; now left].
      rewrite Hidx, Hu in Hrun. discriminate. }
  rewrite Hidx in Hrun.
  pose proof (readOnly_computeNewRows root (d :: ds)
                (pathSet (parseTable readme)) config w2) as Hro.
  destruct (computeNewRows root (d :: ds) (pathSet (parseTable readme)) config w2)
    as [[toAdd existingPaths'] w3 | e w3] eqn:Hrows; [| discriminate].
  simpl in Hro. subst w3. simpl in Hrun.
  destruct toAdd as [|row toAdd]; [injection Hrun as <- _; now left |].
  simpl in Hrun. injection Hrun as <- <-. right.
  exists staged, w1, w2, readme, existingPaths'.
  assert (sameDisk w w2) as Hd2 by (eapply sameDisk_trans; eassumption).
  destruct Hdisk as [Hf1 Hw1]. destruct Hd2 as [Hf2 Hw2].
  destruct Hin2 as [Henv Hgit].
  repeat split; try assumption; try discriminate.
  - now rewrite Hdocs.
  - now rewrite <- Hf2.
  - now rewrite Hdocs.
Qed.

(** Whenever [update] reports [updated = true], [check] on the same
    world and the same candidates answers [false]. *)
Lemma check_false_before_update (root : string) (config : DocsIndexKeeperConfig)
    (stagedOverride : option string) (w : World) (r : UpdateResult) (w' : World) :
  update root config stagedOverride w = Ok r w' ->
  updated r = true ->
  exists w1, check root config stagedOverride w = Ok false w1.
Proof.
  intros Hrun Hup.
  apply update_inv in Hrun
    as [-> | (staged & w1 & w2 & readme & S' & Hres & [Hf1 _] & _ & _ & Hdocs
              & Hidx & Hrows & Hadded & _)]; [discriminate |].
  exists w1. unfold check, bind. rewrite Hres.
  destruct (length (getStagedDocs staged config) =? 0)%nat eqn:Hlen.
  { apply Nat.eqb_eq in Hlen.
    destruct (getStagedDocs staged config); [contradiction | discriminate]. }
  unfold existsSync, readFileSync. cbv beta. rewrite Hf1, Hidx.
  rewrite bool_decide_eq_true_2 by eauto. cbv beta iota delta [negb orb].
  rewrite Hf1, Hidx.
  eapply checkLoop_false_when_rows_added; [exact Hrows | exact Hadded].
Qed.

(** What the membership test of [computeNewRows] does give.  The rows
    [computeNewRows] returns have paths that are not in the set it is
    given and that differ from each other, however often a candidate is
    listed.  The rows [update] adds have paths that no row of the parsed
    table has, so the rows of the table as parsed before the write,
    followed by the added rows, have pairwise different paths whenever the
    rows of the table have.  Nothing is said here of the table as it is
    parsed after the write. *)
Lemma added_rows_are_new (root : string) (config : DocsIndexKeeperConfig) :
  (forall stagedDocs (existingPaths : gset string) w,
     match computeNewRows root stagedDocs existingPaths config w with
     | Ok (toAdd, _) _ =>
         Forall (fun r => path r ∉ existingPaths) toAdd
         /\ NoDup (map path toAdd)
     | Throw _ _ => True
     end)
  /\ (forall stagedOverride w,
        match update root config stagedOverride w with
        | Ok r _ =>
            NoDup (map path (added r))
            /\ forall readme,
                 files w !! join root (indexFile config) = Some readme ->
                 Forall (fun row => path row ∉ map path (parseTable readme))
                        (added r)
                 /\ (NoDup (map path (parseTable readme)) ->
                     NoDup (map path (parseTable readme ++ added r)))
        | Throw _ _ => True
        end).
Proof.
  split.
  - intros stagedDocs existingPaths w.
    destruct (computeNewRows root stagedDocs existingPaths config w)
      as [[toAdd S'] w' | e w'] eqn:Hrun; [| exact I].
    apply computeNewRowsLoop_spec in Hrun as [new [-> [Hnew [Hnd _]]]].
    now split.
  - intros stagedOverride w.
    destruct (update root config stagedOverride w) as [r w' | e w'] eqn:Hrun;
      [| exact I].
    apply update_inv in Hrun
      as [-> | (staged & w1 & w2 & readme & S' & _ & _ & _ & _ & _ & Hidx
                & Hrows & _)].
    + simpl. split; [constructor |]. intros readme _.
      split; [constructor | now rewrite app_nil_r].
    + apply computeNewRowsLoop_spec in Hrows as [new [Heq [Hnew [Hnd _]]]].
      simpl in Heq. subst new. split; [exact Hnd |].
      intros readme' Hidx'. rewrite Hidx in Hidx'. injection Hidx' as <-.
      assert (Forall (fun row => path row ∉ map path (parseTable readme))
                     (added r)) as Hfresh.
      { eapply Forall_impl; [exact Hnew |]. simpl. intros row Hrow Hin.
        apply Hrow. unfold pathSet. now apply elem_of_list_to_set. }
      split; [exact Hfresh |].
      intros Hex. rewrite map_app. apply NoDup_app. split; [exact Hex |].
      split; [| exact Hnd].
      intros x Hx Hx'. apply list_elem_of_fmap in Hx' as [row [-> Hrow]].
      rewrite Forall_forall in Hfresh. exact (Hfresh row Hrow Hx).
Qed.

End RowDiff.

(** C3, on a document whose name has a parenthesis, and on one whose
    name has a bracket.  [update] adds the row of [docs/notes (old).md].
    The row is written as it is; the link pattern wants the [)] that ends
    the path to be followed by white space and a bar, and the first [)] of
    this row is followed by [.md], so the parser does not read the row:
    the path that was inserted is in the table and is not among the parsed
    paths.  A second [update] with the same staged file inserts the same
    row again.  And the row of [docs/t\](a.md) | y.md] is read as a row of
    the path [a.md]: in an index that lists [a.md] the parsed paths are no
    longer pairwise different after the [update]. *)
Theorem update_adds_a_path_twice :
  (update (H := plainHost) "/repo" testConfig (Some "docs/notes (old).md")
     repoWithParentheses
   = Ok {| updated := true; added := [rowNotesOld] |} repoAfterNotes
   /\ files repoAfterNotes !! "/repo/docs/README.md" = Some indexWithNotes
   /\ map path (parseTable indexWithNotes) = ["archive/"]
   /\ update (H := plainHost) "/repo" testConfig (Some "docs/notes (old).md")
        repoAfterNotes
      = Ok {| updated := true; added := [rowNotesOld] |} repoAfterNotesTwice
   /\ files repoAfterNotesTwice !! "/repo/docs/README.md"
      = Some indexWithNotesTwice
   /\ writes repoAfterNotesTwice
      = [("/repo/docs/README.md", indexWithNotes);
         ("/repo/docs/README.md", indexWithNotesTwice)])
  /\ (NoDup (map path (parseTable indexWithA))
      /\ update (H := plainHost) "/repo" testConfig
           (Some "docs/t](a.md) | y.md") repoWithBrackets
         = Ok {| updated := true; added := [rowWithBrackets] |}
              repoWithBracketsUpdated
      /\ files repoWithBracketsUpdated !! "/repo/docs/README.md"
         = Some indexWithAUpdated
      /\ map path (parseTable indexWithAUpdated) = ["a.md"; "a.md"; "archive/"]
      /\ ~ NoDup (map path (parseTable indexWithAUpdated))).
Proof.
  split; [repeat split; vm_compute; reflexivity |].
  assert (map path (parseTable indexWithA) = ["a.md"; "archive/"]) as Hbefore
    by (vm_compute; reflexivity).
  assert (map path (parseTable indexWithAUpdated)
          = ["a.md"; "a.md"; "archive/"]) as Hafter
    by (vm_compute; reflexivity).
  split; [| split; [| split; [| split]]].
  - rewrite Hbefore. apply NoDup_cons. split.
    + intros Hin. apply list_elem_of_singleton in Hin. discriminate.
    + apply NoDup_singleton.
  - vm_compute; reflexivity.
  - vm_compute; reflexivity.
  - exact Hafter.
  - rewrite Hafter. intros Hnd. apply NoDup_cons in Hnd as [Hnotin _].
    apply Hnotin. apply list_elem_of_here.
Qed.

(** ** Runs of [update] and [check] on an index without archive row *)

(** C1, on a repository whose index has no archive row and whose table is
    followed by a blank line: [update] reports [updated = true] with the row
    of [docs/b.md], and [check] before it answers [false], as claimed.  But
    the row is written at the offset of the blank line, that is behind the
    last character of the last table row and on the same line; the parser
    reads one row per line, so [b.md] is not among the parsed paths and
    [check] after the update still answers [false]. *)
Theorem check_after_update_without_sentinel :
  update (H := plainHost) "/repo" testConfig (Some "docs/b.md")
    repoWithoutSentinel
  = Ok {| updated := true; added := [rowB] |} repoAfterUpdate
  /\ files repoAfterUpdate !! "/repo/docs/README.md"
     = Some indexWithoutSentinelUpdated
  /\ map path (parseTable indexWithoutSentinelUpdated) = ["a.md"]
  /\ check (H := plainHost) "/repo" testConfig (Some "docs/b.md")
       repoWithoutSentinel
     = Ok false repoWithoutSentinel
  /\ check (H := plainHost) "/repo" testConfig (Some "docs/b.md")
       repoAfterUpdate
     = Ok false repoAfterUpdate.
Proof. repeat split; vm_compute; reflexivity. Qed.

(** C2, on the same repository: a second [update] with the same staged
    file and nothing else changed reports [updated = true] again, writes
    the index a second time, and the index it leaves has the row of
    [docs/b.md] twice. *)
Theorem update_twice_without_sentinel :
  update (H := plainHost) "/repo" testConfig (Some "docs/b.md") repoAfterUpdate
  = Ok {| updated := true; added := [rowB] |} repoAfterSecondUpdate
  /\ files repoAfterUpdate !! "/repo/docs/README.md"
     = Some indexWithoutSentinelUpdated
  /\ files repoAfterSecondUpdate !! "/repo/docs/README.md"
     = Some indexWithoutSentinelUpdatedTwice
  /\ indexWithoutSentinelUpdatedTwice <> indexWithoutSentinelUpdated
  /\ writes repoAfterSecondUpdate
     = [("/repo/docs/README.md", indexWithoutSentinelUpdated);
        ("/repo/docs/README.md", indexWithoutSentinelUpdatedTwice)].
Proof.
  repeat split; try (vm_compute; reflexivity).
  vm_compute. discriminate.
Qed.

(** ** Rows inserted at the sentinel are read back *)

Lemma splitLines_nonempty (s : string) : splitLines s <> [].
Proof.
  induction s as [|c s IH]; simpl; [discriminate |].
  destruct (Ascii.eqb c LF); [discriminate |].
  destruct (splitLines s); [contradiction | discriminate].
Qed.

(** Splitting distributes over a line feed. *)
Lemma splitLines_append_nl (a b : string) :
  splitLines (a ++ nl ++ b) = (splitLines a ++ splitLines b)%list.
Proof.
  change (nl ++ b) with (String LF b).
  induction a as [|c a IH]; simpl.
  - reflexivity.
  - rewrite IH. destruct (Ascii.eqb c LF); [reflexivity |].
    pose proof (splitLines_nonempty a) as Hne.
    destruct (splitLines a) as [|l ls]; [contradiction | reflexivity].
Qed.

Lemma splitLines_joinLines (ls : list string) :
  ls <> [] ->
  Forall (fun l => splitLines l = [l]) ls ->
  splitLines (joinLines ls) = ls.
Proof.
  induction ls as [|l ls IH]; intros Hne Hone; [contradiction |].
  inversion Hone as [|? ? Hl Hls]; subst.
  destruct ls as [|l' ls']; [exact Hl |].
  change (joinLines (l :: l' :: ls')) with (l ++ nl ++ joinLines (l' :: ls')).
  rewrite splitLines_append_nl, Hl, IH by (discriminate || assumption).
  reflexivity.
Qed.

(** A text that starts with [|] has a first line that starts with [|]. *)
Lemma splitLines_leading_pipe (s : string) :
  startsWith "|" s = true ->
  exists l ls, splitLines s = l :: ls /\ startsWith "|" l = true.
Proof.
  intros Hs. apply startsWith_spec in Hs as [r ->].
  change ("|" ++ r) with (String "|" r). set (s := r).
  simpl. pose proof (splitLines_nonempty s) as Hne.
  destruct (splitLines s) as [|l ls]; [contradiction |].
  exists (String "|" l), ls. split; reflexivity.
Qed.

Lemma endsWith_spec (suf s : string) :
  endsWith suf s = true ->
  s = str_take (String.length s - String.length suf) s ++ suf.
Proof.
  unfold endsWith. intros Hend. apply andb_true_iff in Hend as [_ Heq].
  apply String.eqb_eq in Heq.
  set (n := (String.length s - String.length suf)%nat) in *.
  rewrite <- Heq. symmetry. apply str_take_drop.
Qed.

(** Where [find] finds the pattern, the pattern is. *)
Lemma find_startsWith (pat s : string) (i j : nat) :
  find pat s i = Some j -> startsWith pat (str_drop (j - i) s) = true.
Proof.
  revert i; induction s as [|c s IH]; intros i; simpl.
  - destruct (startsWith pat "") eqn:Hs; [|discriminate].
    intros [= <-]. now rewrite Nat.sub_diag.
  - destruct (startsWith pat (String c s)) eqn:Hs.
    + intros [= <-]. now rewrite Nat.sub_diag.
    + intros Hf. pose proof (find_bounds _ _ _ _ Hf) as Hb.
      apply IH in Hf. replace (j - i)%nat with (S (j - S i)) by lia.
      exact Hf.
Qed.

Lemma indexOf_startsWith (pat s : string) :
  indexOf pat s <> -1 ->
  0 <= indexOf pat s <= Z.of_nat (String.length s)
  /\ startsWith pat (str_drop (Z.to_nat (indexOf pat s)) s) = true.
Proof.
  intros Hfound.
  destruct (indexOfFrom_range pat s 0) as [Hnone | Hrange]; [contradiction |].
  split; [exact Hrange |].
  unfold indexOf, indexOfFrom in *.
  replace (clamp s 0) with 0%nat in * by (unfold clamp; lia).
  change (str_drop 0 s) with s in *.
  destruct (find pat s 0) as [j|] eqn:Hf; [| contradiction].
  apply find_startsWith in Hf. now rewrite Nat.sub_0_r, <- (Nat2Z.id j) in Hf.
Qed.

Lemma parseLines_scanLines (lines : list string) (st : ParseState) :
  parseLines lines st = rows (stateOf (scanLines lines st)).
Proof.
  revert st; induction lines as [|l ls IH]; intros st; simpl; [reflexivity |].
  destruct (parseLine st l); [apply IH | reflexivity].
Qed.

Lemma parseLines_app (l1 l2 : list string) (st st1 : ParseState) :
  scanLines l1 st = Next st1 ->
  parseLines (l1 ++ l2) st = parseLines l2 st1.
Proof.
  revert st; induction l1 as [|l ls IH]; intros st; simpl.
  - now intros [= ->].
  - destruct (parseLine st l); [apply IH | discriminate].
Qed.

(** The rows found so far are a prefix of the result. *)
Lemma parseLines_base (lines : list string) :
  forall (b : bool) (base : list IndexRow),
    parseLines lines {| inTable := b; rows := base |}
    = (base ++ parseLines lines {| inTable := b; rows := [] |})%list.
Proof.
  induction lines as [|l ls IH]; intros b base; simpl.
  - now rewrite app_nil_r.
  - unfold parseLine. cbn [inTable rows].
    destruct (isTableLine l).
    + destruct (linkMatch l) as [[t p]|]; cbn [rows List.app].
      * rewrite (IH true (base ++ _)%list), (IH true [_]).
        now rewrite <- List.app_assoc.
      * apply IH.
    + destruct (b && negb (startsWith "|" (trim l))); cbn [rows].
      * now rewrite app_nil_r.
      * apply IH.
Qed.

(** On a line that starts with [|] the flag does not matter. *)
Lemma parseLines_leading_pipe (l : string) (ls : list string) (b : bool)
    (base : list IndexRow) :
  startsWith "|" l = true ->
  parseLines (l :: ls) {| inTable := b; rows := base |}
  = parseLines (l :: ls) {| inTable := true; rows := base |}.
Proof.
  intros Hl. simpl. unfold parseLine. rewrite isTableLine_startsWith, Hl.
  reflexivity.
Qed.

Lemma renderRow_leading_pipe (r : IndexRow) : startsWith "|" (renderRow r) = true.
Proof. reflexivity. Qed.

(** The scan over rendered rows that read back collects them. *)
Lemma scanLines_rendered (newRows : list IndexRow) :
  forallb readsBack newRows = true ->
  forall (b : bool) (base : list IndexRow),
    scanLines (map renderRow newRows) {| inTable := b; rows := base |}
    = Next {| inTable := match newRows with [] => b | _ => true end;
              rows := (base ++ map asParsed newRows)%list |}.
Proof.
  induction newRows as [|r rs IH]; intros Hall b base; simpl.
  - now rewrite app_nil_r.
  - simpl in Hall. apply andb_true_iff in Hall as [Hr Hrs].
    unfold readsBack in Hr. apply andb_true_iff in Hr as [_ Hlink].
    apply bool_decide_eq_true in Hlink.
    unfold parseLine.
    rewrite isTableLine_startsWith, renderRow_leading_pipe, Hlink. simpl.
    rewrite (IH Hrs). rewrite <- List.app_assoc. simpl.
    now destruct rs.
Qed.

(** With the sentinel at the start of a line the scan gets to, the rows
    [insertRows] writes are parsed, in their order, between the rows the
    table had before and after the sentinel. *)
Lemma parseTable_insertRows_at_sentinel (readme : string)
    (newRows : list IndexRow) :
  sentinelOpensTableLine readme = true ->
  newRows <> [] ->
  forallb readsBack newRows = true ->
  exists before after,
    parseTable readme = (before ++ after)%list
    /\ parseTable (insertRows readme newRows defaultSentinel)
       = (before ++ map asParsed newRows ++ after)%list.
Proof.
  intros Hsent Hne Hall. unfold sentinelOpensTableLine in Hsent.
  destruct (Z.eqb_spec (indexOf defaultSentinel readme) (-1)) as [| Hfound];
    [discriminate |].
  destruct (indexOf_startsWith _ _ Hfound) as [Hrange Hstart].
  rewrite insertRows_splice, (insertIdx_sentinel _ _ Hfound).
  set (k := Z.to_nat (indexOf defaultSentinel readme)) in *.
  set (pre := str_take k readme) in *. set (rest := str_drop k readme) in *.
  assert (readme = pre ++ rest) as Hreadme by (symmetry; apply str_take_drop).
  assert (startsWith "|" rest = true) as Hpipe.
  { apply startsWith_spec in Hstart as [t Ht]. rewrite Ht. reflexivity. }
  destruct (splitLines_leading_pipe rest Hpipe) as [l [ls [Hlines Hl]]].
  assert (splitLines (joinLines (map renderRow newRows) ++ nl ++ rest)
          = (map renderRow newRows ++ l :: ls)%list) as Hnew.
  { rewrite splitLines_append_nl, Hlines, splitLines_joinLines; [reflexivity | |].
    - destruct newRows; [contradiction | discriminate].
    - apply Forall_forall. intros x Hx.
      apply list_elem_of_fmap in Hx as [r [-> Hr]].
      rewrite forallb_forall in Hall.
      apply list_elem_of_In in Hr. specialize (Hall r Hr).
      unfold readsBack in Hall. apply andb_true_iff in Hall as [Hone _].
      now apply bool_decide_eq_true in Hone. }
  assert (forall b base,
            parseLines (map renderRow newRows ++ l :: ls)
              {| inTable := b; rows := base |}
            = (base ++ map asParsed newRows
               ++ parseLines (l :: ls) {| inTable := true; rows := [] |})%list)
    as Hparse.
  { intros b base.
    rewrite (parseLines_app _ _ _ _ (scanLines_rendered newRows Hall b base)).
    rewrite (parseLines_leading_pipe l ls _ _ Hl), parseLines_base.
    now rewrite <- List.app_assoc. }
  destruct pre as [|c pre0] eqn:Hpre.
  - exists [], (parseLines (l :: ls) {| inTable := true; rows := [] |}).
    unfold parseTable. cbn [append] in Hreadme |- *. rewrite Hreadme.
    rewrite Hlines, Hnew. split.
    + apply (parseLines_leading_pipe l ls false [] Hl).
    + apply Hparse.
  - rewrite <- Hpre in *. clear Hpre c pre0.
    apply andb_true_iff in Hsent as [Hend Hscan].
    apply endsWith_spec in Hend. simpl String.length in Hend.
    set (pre' := str_take (String.length pre - 1) pre) in *.
    destruct (scanLines (splitLines pre') initialParse) as [st1 | st1] eqn:Hst1;
      [| discriminate].
    exists (rows st1), (parseLines (l :: ls) {| inTable := true; rows := [] |}).
    unfold parseTable. rewrite Hreadme, Hend, !append_assoc.
    rewrite (splitLines_append_nl pre' rest),
      (splitLines_append_nl pre' (joinLines (map renderRow newRows) ++ nl ++ rest)),
      Hlines, Hnew.
    change initialParse with {| inTable := false; rows := [] |} in Hst1.
    split.
    + rewrite (parseLines_app _ _ _ _ Hst1). destruct st1 as [b1 base1].
      rewrite (parseLines_leading_pipe l ls _ _ Hl). apply parseLines_base.
    + rewrite (parseLines_app _ _ _ _ Hst1). destruct st1 as [b1 base1].
      apply Hparse.
Qed.

(** *** Rows that read back *)

Lemma lacks_append (c : ascii) (a b : string) :
  lacks c (a ++ b) = lacks c a && lacks c b.
Proof.
  induction a as [|d a IH]; simpl; [reflexivity |].
  now rewrite IH, andb_assoc.
Qed.

Lemma splitLines_lacks (s : string) : lacks LF s = true -> splitLines s = [s].
Proof.
  induction s as [|c s IH]; simpl; [reflexivity |].
  intros Hs. apply andb_true_iff in Hs as [Hc Hs].
  apply negb_true_iff in Hc. rewrite Hc, (IH Hs). reflexivity.
Qed.

Lemma upTo_lacks (stop : ascii) (g rest : string) :
  lacks stop g = true -> upTo stop (g ++ String stop rest) = Some (g, rest).
Proof.
  induction g as [|c g IH]; simpl.
  - intros _. now rewrite Ascii.eqb_refl.
  - intros Hg. apply andb_true_iff in Hg as [Hc Hg].
    apply negb_true_iff in Hc. now rewrite Hc, (IH Hg).
Qed.

Lemma linkMatch_linkAt (s : string) (m : string * string) :
  linkAt s = Some m -> linkMatch s = Some m.
Proof. intros Hat. destruct s; cbn [linkMatch]; now rewrite Hat. Qed.

(** The line a well-formed row renders to, read by the link pattern. *)
Lemma renderRow_linkMatch (r : IndexRow) :
  wellFormedRow r = true -> readsBack r = true.
Proof.
  unfold wellFormedRow, readsBack, renderRow. destruct r as [t p q].
  cbn [title path purpose].
  rewrite !andb_true_iff, !negb_true_iff, !String.eqb_neq.
  intros [[[[[[Ht Htb] Htl] Hp] Hpb] Hpl] Hql].
  set (shown := default t q) in *.
  split; apply bool_decide_eq_true.
  - apply splitLines_lacks.
    rewrite !lacks_append, Htl, Hpl, Hql. reflexivity.
  - apply linkMatch_linkAt.
    change ("| [" ++ t ++ "](" ++ p ++ ") | " ++ shown ++ " |")
      with (String "|" (String " " (String "["
              (t ++ String "]" (String "("
                 (p ++ String ")" (String " " (String "|"
                    (String " " (shown ++ " |"))))))))))%char.
    unfold linkAt.
    change (skipSpaces (String " " (String "[" ?x))) with (String "[" x).
    cbv beta iota. rewrite (upTo_lacks _ _ _ Htb).
    destruct t as [|c t]; [contradiction |].
    rewrite (upTo_lacks _ _ _ Hpb).
    destruct p as [|d p]; [contradiction |].
    reflexivity.
Qed.

(** A well-formed row reads back. *)
Lemma wellFormedRow_readsBack (r : IndexRow) :
  wellFormedRow r = true -> readsBack r = true.
Proof. exact (renderRow_linkMatch r). Qed.

Lemma wellFormedRow_readsBack_witness : readsBack rowNewDoc = true.
Proof. apply (wellFormedRow_readsBack rowNewDoc). reflexivity. Defined.

(** ** [update] and [check] on an index with the sentinel in its table *)

Section AtSentinel.

Context `{Host}.

(** Every candidate path ends up in the set the loop leaves. *)
Lemma computeNewRowsLoop_covers (root : string) (config : DocsIndexKeeperConfig)
    (remove : string -> string) (stagedDocs : list string) :
  regExpRemove ("^" ++ docsDir config ++ "/") = Some remove ->
  forall (existingPaths : gset string) (acc : list IndexRow) (w : World)
         toAdd existingPaths' w',
    computeNewRowsLoop root stagedDocs existingPaths config acc w
    = Ok (toAdd, existingPaths') w' ->
    existingPaths ⊆ existingPaths'
    /\ forall p, p ∈ stagedDocs -> remove p ∈ existingPaths'.
Proof.
  intros Hre. induction stagedDocs as [|p rest IH];
    intros existingPaths acc w toAdd existingPaths' w' Hrun; simpl in Hrun.
  - injection Hrun as _ <- _. split; [reflexivity |].
    intros p Hp. inversion Hp.
  - unfold bind in Hrun at 1. unfold stripDocsDir in Hrun.
    rewrite Hre in Hrun. simpl in Hrun.
    destruct (bool_decide (remove p ∈ existingPaths)) eqn:Hin.
    + apply bool_decide_eq_true in Hin.
      apply IH in Hrun as [Hsub Hall]. split; [exact Hsub |].
      intros q Hq. apply elem_of_cons in Hq as [-> | Hq];
        [now apply Hsub | now apply Hall].
    + unfold bind in Hrun at 1.
      destruct (getFirstHeading_outcome root p w)
        as [[heading Hh] | (u & _ & _ & Hh)];
        rewrite Hh in Hrun; [| discriminate]. apply IH in Hrun as [Hsub Hall].
      assert (remove p ∈ existingPaths') as Hp.
      { apply Hsub, elem_of_union. left. now apply elem_of_singleton. }
      split.
      * intros x Hx. apply Hsub, elem_of_union. now right.
      * intros q Hq. apply elem_of_cons in Hq as [-> | Hq];
          [exact Hp | now apply Hall].
Qed.

(** A loop that went through a candidate had its regular expression. *)
Lemma computeNewRowsLoop_regExp (root : string) (config : DocsIndexKeeperConfig)
    (p : string) (rest : list string) (existingPaths : gset string)
    (acc : list IndexRow) (w : World) res w' :
  computeNewRowsLoop root (p :: rest) existingPaths config acc w = Ok res w' ->
  exists remove, regExpRemove ("^" ++ docsDir config ++ "/") = Some remove.
Proof.
  simpl. unfold bind at 1.
  destruct (stripDocsDir_cases config p w) as [[remove [Hre _]] | [_ Hs]].
  - intros _. now exists remove.
  - rewrite Hs. discriminate.
Qed.

Lemma checkLoop_true (config : DocsIndexKeeperConfig) (remove : string -> string)
    (stagedDocs : list string) (existingPaths : gset string) (w : World) :
  regExpRemove ("^" ++ docsDir config ++ "/") = Some remove ->
  (forall p, p ∈ stagedDocs -> remove p ∈ existingPaths) ->
  checkLoop stagedDocs existingPaths config w = Ok true w.
Proof.
  intros Hre. induction stagedDocs as [|p rest IH]; intros Hall; simpl.
  - reflexivity.
  - unfold bind at 1. unfold stripDocsDir. rewrite Hre. simpl.
    rewrite bool_decide_eq_true_2 by (apply Hall; left). simpl.
    apply IH. intros q Hq. apply Hall. now right.
Qed.

(** With every candidate path in the set, the loop adds nothing. *)
Lemma computeNewRowsLoop_nothing_new (root : string)
    (config : DocsIndexKeeperConfig) (remove : string -> string)
    (stagedDocs : list string) (existingPaths : gset string)
    (acc : list IndexRow) (w : World) :
  regExpRemove ("^" ++ docsDir config ++ "/") = Some remove ->
  (forall p, p ∈ stagedDocs -> remove p ∈ existingPaths) ->
  computeNewRowsLoop root stagedDocs existingPaths config acc w
  = Ok (acc, existingPaths) w.
Proof.
  intros Hre. induction stagedDocs as [|p rest IH]; intros Hall; simpl.
  - reflexivity.
  - unfold bind at 1. unfold stripDocsDir. rewrite Hre. simpl.
    rewrite bool_decide_eq_true_2 by (apply Hall; left).
    apply IH. intros q Hq. apply Hall. now right.
Qed.

(** After an [update] that wrote at the sentinel, every candidate path is
    a path of the parsed table. *)
Lemma update_at_sentinel_covers (root : string) (config : DocsIndexKeeperConfig)
    (remove : string -> string) (stagedDocs : list string) (readme : string)
    (toAdd : list IndexRow) (existingPaths' : gset string) (w : World) :
  regExpRemove ("^" ++ docsDir config ++ "/") = Some remove ->
  computeNewRows root stagedDocs (pathSet (parseTable readme)) config w
  = Ok (toAdd, existingPaths') w ->
  toAdd <> [] ->
  sentinelOpensTableLine readme = true ->
  forallb readsBack toAdd = true ->
  forall p, p ∈ stagedDocs ->
    remove p ∈ pathSet (parseTable (insertRows readme toAdd defaultSentinel)).
Proof.
  intros Hre Hrows Hne Hsent Hback p Hp.
  destruct (parseTable_insertRows_at_sentinel readme toAdd Hsent Hne Hback)
    as [before [after [Hold Hnew]]].
  destruct (computeNewRowsLoop_covers root config remove stagedDocs Hre
              _ _ _ _ _ _ Hrows) as [_ Hall].
  apply computeNewRowsLoop_spec in Hrows as [new [Heq [_ [_ Hset]]]].
  simpl in Heq. subst new.
  specialize (Hall p Hp). apply Hset in Hall.
  unfold pathSet in *. rewrite Hnew. rewrite Hold in Hall.
  rewrite elem_of_list_to_set in *. rewrite !map_app in *.
  rewrite !elem_of_app in *.
  assert (map path (map asParsed toAdd) = map path toAdd) as ->.
  { rewrite map_map. reflexivity. }
  tauto.
Qed.

Lemma length_eqb_0 {A} (l : list A) : l <> [] -> (length l =? 0)%nat = false.
Proof. destruct l; [contradiction | reflexivity]. Qed.

Lemma existsSync_found (p content : string) (w : World) :
  files w !! p = Some content -> existsSync p w = Ok true w.
Proof. intros Hp. unfold existsSync. now rewrite Hp. Qed.

Lemma readFileSync_found (p content : string) (w : World) :
  files w !! p = Some content -> readFileSync p w = Ok content w.
Proof. intros Hp. unfold readFileSync. now rewrite Hp. Qed.

(** Runs the first bind of the goal with the given result. *)
Ltac run_bind Hres := unfold bind at 1; rewrite Hres; cbv beta iota.

(** Where the design works.  When the archive row opens a line of the
    table and the added rows read back, [update] that reports
    [updated = true] is preceded by a [check] that answers [false] and
    followed by a [check] that answers [true], and a second [update] with
    the same staged files changes nothing. *)
Theorem update_then_check_at_sentinel
    (root : string) (config : DocsIndexKeeperConfig)
    (stagedOverride : option string) (w : World) (r : UpdateResult)
    (w' : World) (readme : string) :
  update root config stagedOverride w = Ok r w' ->
  updated r = true ->
  files w !! join root (indexFile config) = Some readme ->
  sentinelOpensTableLine readme = true ->
  forallb readsBack (added r) = true ->
  (exists w1, check root config stagedOverride w = Ok false w1)
  /\ (exists w1, check root config stagedOverride w' = Ok true w1)
  /\ (exists w2,
        update root config stagedOverride w' = Ok noChange w2
        /\ files w2 = files w' /\ writes w2 = writes w').
Proof.
  intros Hrun Hup Hidx Hsent Hback.
  split; [eapply check_false_before_update; eassumption |].
  apply update_inv in Hrun
    as [-> | (staged & w1 & w2 & readme0 & S' & Hres & _ & _ & Hin2 & Hdocs
              & Hidx0 & Hrows & Hadded & _ & Hwrite)]; [discriminate |].
  rewrite Hidx in Hidx0. injection Hidx0 as <-.
  assert (exists remove, regExpRemove ("^" ++ docsDir config ++ "/") = Some remove)
    as [remove Hre].
  { destruct (getStagedDocs staged config) as [|d ds]; [contradiction |].
    eapply computeNewRowsLoop_regExp. exact Hrows. }
  pose proof (update_at_sentinel_covers root config remove _ _ _ _ _
                Hre Hrows Hadded Hsent Hback) as Hcov.
  set (readme' := insertRows readme (added r) defaultSentinel) in *.
  assert (files w' !! join root (indexFile config) = Some readme') as Hidx'.
  { unfold writeFileSync in Hwrite. injection Hwrite as <-. simpl.
    apply lookup_insert_eq. }
  assert (sameInputs w w') as Hin'.
  { unfold writeFileSync in Hwrite. injection Hwrite as <-. exact Hin2. }
  destruct (getStagedMdFiles_same_inputs _ _ _ _ _ Hin' Hres)
    as [v1 [Hres' [[Hfv Hwv] _]]].
  assert (staged <> []) as Hstaged.
  { intros ->. now apply Hdocs. }
  split.
  - exists v1. unfold check. run_bind Hres'.
    rewrite (length_eqb_0 _ Hdocs).
    assert (files v1 !! join root (indexFile config) = Some readme') as Hv1 by now rewrite Hfv.
    run_bind (existsSync_found _ _ _ Hv1). cbv beta iota delta [negb].
    run_bind (readFileSync_found _ _ _ Hv1).
    now apply (checkLoop_true config remove).
  - destruct (warnRootMd_returns staged config v1)
      as [v2 [Hwarn [[Hf2 Hw2] _]]].
    assert (files v2 !! join root (indexFile config) = Some readme') as Hv2
        by now rewrite Hf2, Hfv.
    exists v2. split; [| split; congruence].
    unfold update. run_bind Hres'. rewrite (length_eqb_0 _ Hstaged).
    run_bind Hwarn. rewrite (length_eqb_0 _ Hdocs).
    run_bind (existsSync_found _ _ _ Hv2). cbv beta iota delta [negb].
    run_bind (readFileSync_found _ _ _ Hv2).
    unfold bind at 1. unfold computeNewRows.
    rewrite (computeNewRowsLoop_nothing_new root config remove _ _ [] v2 Hre Hcov).
    reflexivity.
Qed.

End AtSentinel.

(** The test [adds new doc to index], then [check] and a second [update]. *)
Lemma update_then_check_at_sentinel_witness :
  (exists w1, check (H := plainHost) "/repo" testConfig (Some "docs/new-doc.md")
                repoWithSentinel = Ok false w1)
  /\ (exists w1, check (H := plainHost) "/repo" testConfig
                   (Some "docs/new-doc.md") repoWithSentinelUpdated = Ok true w1)
  /\ (exists w2,
        update (H := plainHost) "/repo" testConfig (Some "docs/new-doc.md")
          repoWithSentinelUpdated = Ok noChange w2
        /\ files w2 = files repoWithSentinelUpdated
        /\ writes w2 = writes repoWithSentinelUpdated).
Proof.
  apply (update_then_check_at_sentinel (H := plainHost) "/repo" testConfig
           (Some "docs/new-doc.md") repoWithSentinel
           {| updated := true; added := [rowNewDoc] |}
           repoWithSentinelUpdated indexWithSentinel);
    vm_compute; reflexivity.
Defined.

(** ** [check] as the dry run of [update] *)

(** Runs the first bind of the goal with the result given for it. *)
Ltac run_first Hres := unfold bind at 1; rewrite Hres; cbv beta iota.

Section DryRun.

Context `{Host}.


(** [update], step by step. *)
Lemma update_steps (root : string) (config : DocsIndexKeeperConfig)
    (stagedOverride : option string) (w : World) :
  update root config stagedOverride w
  = match getStagedMdFiles stagedOverride w with
    | Throw e w1 => Throw e w1
    | Ok staged w1 =>
        if (length staged =? 0)%nat then Ok noChange w1
        else
          let w2 := world_of (warnRootMd staged config w1) in
          if (length (getStagedDocs staged config) =? 0)%nat
          then Ok noChange w2
          else
            match files w2 !! join root (indexFile config) with
            | None =>
                match unreadable w2 !! join root (indexFile config) with
                | None => Ok noChange w2
                | Some u => Throw (readError u) w2
                end
            | Some readme =>
                match computeNewRows root (getStagedDocs staged config)
                        (pathSet (parseTable readme)) config w2 with
                | Throw e w3 => Throw e w3
                | Ok res w3 =>
                    if (length (fst res) =? 0)%nat then Ok noChange w3
                    else
                      match writeFileSync (join root (indexFile config))
                              (insertRows readme (fst res) defaultSentinel) w3
                      with
                      | Ok _ w4 => Ok {| updated := true; added := fst res |} w4
                      | Throw e w4 => Throw e w4
                      end
                end
            end
    end.
Proof.
  unfold update. unfold bind at 1.
  destruct (getStagedMdFiles stagedOverride w) as [staged w1 | e w1];
    [| reflexivity].
  destruct (length staged =? 0)%nat; [reflexivity |].
  unfold bind at 1.
  destruct (warnRootMd_returns staged config w1) as [w2 [-> _]].
  cbn [world_of]. cbv zeta.
  destruct (length (getStagedDocs staged config) =? 0)%nat; [reflexivity |].
  destruct (files w2 !! join root (indexFile config)) as [readme|] eqn:Hidx.
  2:{ destruct (unreadable w2 !! join root (indexFile config)) as [u|] eqn:Hu.
      - run_first (existsSync_unreadable _ _ _ Hu).
        cbv beta iota delta [negb].
        run_first (readFileSync_unreadable _ _ _ Hidx Hu). reflexivity.
      - run_first (existsSync_missing _ _ Hidx Hu). reflexivity. }
  run_first (existsSync_found _ _ _ Hidx). cbv beta iota delta [negb].
  run_first (readFileSync_found _ _ _ Hidx). unfold bind at 1.
  destruct (computeNewRows root (getStagedDocs staged config)
              (pathSet (parseTable readme)) config w2) as [res w3 | e w3];
    [| reflexivity].
  destruct (length (fst res) =? 0)%nat; reflexivity.
Qed.

(** One turn of the loop of [computeNewRows]. *)
Lemma computeNewRowsLoop_cons (root : string) (config : DocsIndexKeeperConfig)
    (p : string) (rest : list string) (existingPaths : gset string)
    (acc : list IndexRow) (w : World) :
  computeNewRowsLoop root (p :: rest) existingPaths config acc w
  = match regExpRemove ("^" ++ docsDir config ++ "/") with
    | None => Throw RegExpSyntaxError w
    | Some remove =>
        if bool_decide (remove p ∈ existingPaths)
        then computeNewRowsLoop root rest existingPaths config acc w
        else
          match getFirstHeading root p w with
          | Ok heading w' =>
              computeNewRowsLoop root rest ({[remove p]} ∪ existingPaths) config
                (acc ++ [rowFor (remove p) heading]) w'
          | Throw e w' => Throw e w'
          end
    end.
Proof.
  cbn [computeNewRowsLoop]. unfold bind at 1. unfold stripDocsDir.
  destruct (regExpRemove ("^" ++ docsDir config ++ "/")) as [remove|];
    [| reflexivity].
  cbn [ret]. destruct (bool_decide (remove p ∈ existingPaths)); reflexivity.
Qed.


(** When the regular expression can be built, the loop of
    [computeNewRows] throws only the error of the read of a candidate
    that exists and cannot be read, and leaves the world as it is. *)
Lemma computeNewRowsLoop_throws (root : string) (config : DocsIndexKeeperConfig)
    (remove : string -> string) (stagedDocs : list string) :
  regExpRemove ("^" ++ docsDir config ++ "/") = Some remove ->
  forall (existingPaths : gset string) (acc : list IndexRow) (w w' : World)
         (e : exn),
    computeNewRowsLoop root stagedDocs existingPaths config acc w = Throw e w' ->
    w' = w
    /\ exists p u, In p stagedDocs
                   /\ files w !! join root p = None
                   /\ unreadable w !! join root p = Some u
                   /\ e = readError u.
Proof.
  intros Hre. induction stagedDocs as [|p rest IH];
    intros existingPaths acc w w' e Hrun; [discriminate |].
  rewrite computeNewRowsLoop_cons, Hre in Hrun.
  assert (forall S0 acc0,
            computeNewRowsLoop root rest S0 config acc0 w = Throw e w' ->
            w' = w
            /\ exists q u, In q (p :: rest)
                           /\ files w !! join root q = None
                           /\ unreadable w !! join root q = Some u
                           /\ e = readError u) as Hrest.
  { intros S0 acc0 Hr. apply IH in Hr as [-> (q & u & Hq & Hf & Hu & ->)].
    split; [reflexivity |]. exists q, u. repeat split; try assumption.
    now right. }
  destruct (bool_decide (remove p ∈ existingPaths)); [now apply Hrest in Hrun |].
  destruct (getFirstHeading_outcome root p w)
    as [[heading Hh] | (u & Hf & Hu & Hh)]; rewrite Hh in Hrun.
  - now apply Hrest in Hrun.
  - injection Hrun as <- <-. split; [reflexivity |].
    exists p, u. repeat split; try assumption. now left.
Qed.




End DryRun.

(** ** What the staged-file resolver returns *)

Lemma splitLines_lacks_LF (s : string) :
  Forall (fun l => lacks LF l = true) (splitLines s).
Proof.
  induction s as [|c s IH]; simpl.
  - repeat constructor.
  - destruct (Ascii.eqb c LF) eqn:Hc.
    + constructor; [reflexivity | exact IH].
    + destruct (splitLines s) as [|l ls]; [repeat constructor; simpl; now rewrite Hc |].
      inversion IH as [|? ? Hl Hls]; subst.
      constructor; [| exact Hls]. simpl. now rewrite Hc, Hl.
Qed.

Lemma lacks_trimStart (c : ascii) (s : string) :
  lacks c s = true -> lacks c (trimStart s) = true.
Proof.
  induction s as [|d s IH]; simpl; [reflexivity |].
  intros Hs. destruct (isSpace d); [| exact Hs].
  apply andb_true_iff in Hs as [_ Hs]. now apply IH.
Qed.

Lemma lacks_trimEnd (c : ascii) (s : string) :
  lacks c s = true -> lacks c (trimEnd s) = true.
Proof.
  induction s as [|d s IH]; simpl; [reflexivity |].
  intros Hs. apply andb_true_iff in Hs as [Hd Hs]. specialize (IH Hs).
  destruct (trimEnd s) as [|e r].
  - destruct (isSpace d); simpl; [reflexivity | now rewrite Hd].
  - simpl. simpl in IH. now rewrite Hd, IH.
Qed.

Lemma lacks_trim (c : ascii) (s : string) :
  lacks c s = true -> lacks c (trim s) = true.
Proof. intros Hs. now apply lacks_trimEnd, lacks_trimStart. Qed.

Lemma trimEnd_idempotent (s : string) : trimEnd (trimEnd s) = trimEnd s.
Proof.
  induction s as [|c s IH]; simpl; [reflexivity |].
  destruct (trimEnd s) as [|d r] eqn:Hs.
  - destruct (isSpace c) eqn:Hc; simpl; [reflexivity | now rewrite Hc].
  - simpl. simpl in IH. now rewrite IH.
Qed.

(** What [trimStart] leaves does not start with white space. *)
Lemma trimStart_head (s : string) :
  match trimStart s with
  | "" => True
  | String c _ => isSpace c = false
  end.
Proof.
  induction s as [|c s IH]; simpl; [exact I |].
  destruct (isSpace c) eqn:Hc; [exact IH | exact Hc].
Qed.

(** [trimEnd] keeps a first character that is not white space. *)
Lemma trimEnd_head (c : ascii) (s : string) :
  isSpace c = false -> exists r, trimEnd (String c s) = String c r.
Proof.
  intros Hc. simpl. destruct (trimEnd s) as [|d r].
  - rewrite Hc. now exists "".
  - now exists (String d r).
Qed.

Lemma trimEnd_empty : trimEnd "" = "".
Proof. reflexivity. Qed.

Lemma trim_idempotent (s : string) : trim (trim s) = trim s.
Proof.
  unfold trim. pose proof (trimStart_head s) as Hhead.
  destruct (trimStart s) as [|c r] eqn:Hs; [reflexivity |].
  destruct (trimEnd_head c r Hhead) as [r' Hr']. rewrite Hr'.
  assert (trimStart (String c r') = String c r') as ->
      by (simpl; now rewrite Hhead).
  rewrite <- Hr'. apply trimEnd_idempotent.
Qed.

Lemma endsWith_md_nonempty (p : string) : endsWith ".md" p = true -> p <> "".
Proof. intros Hp ->. discriminate. Qed.

(** Every path of [mdLines] ends in [.md], is trimmed and is one line. *)
Lemma mdLines_paths (raw : string) :
  Forall (fun p => endsWith ".md" p = true /\ trim p = p /\ lacks LF p = true)
         (mdLines raw).
Proof.
  unfold mdLines. apply Forall_forall. intros p Hp.
  apply list_elem_of_In, filter_In in Hp as [Hin Hmd].
  apply in_map_iff in Hin as [l [<- Hl]].
  split; [exact Hmd |]. split; [apply trim_idempotent |].
  apply lacks_trim.
  pose proof (splitLines_lacks_LF raw) as Hall.
  rewrite Forall_forall in Hall. apply Hall. now apply list_elem_of_In.
Qed.

(** Whatever the source (override, environment or git), the paths the
    resolver returns end in [.md], carry no white space at either end and
    no line feed, and so are not empty; the resolver fails only with the
    failure of git, and only when git fails. *)
Theorem getStagedMdFiles_paths (stagedOverride : option string) (w : World) :
  match getStagedMdFiles stagedOverride w with
  | Ok staged _ =>
      Forall (fun p => endsWith ".md" p = true /\ trim p = p
                       /\ lacks LF p = true /\ p <> "") staged
  | Throw e _ => e = GitFailed /\ git_staged w = None
  end.
Proof.
  assert (forall raw,
            Forall (fun p => endsWith ".md" p = true /\ trim p = p
                             /\ lacks LF p = true /\ p <> "") (mdLines raw))
    as Hmd.
  { intros raw. eapply Forall_impl; [apply mdLines_paths |].
    intros p [Hend [Htrim Hlf]]. repeat split; try assumption.
    now apply endsWith_md_nonempty. }
  rewrite getStagedMdFiles_cases.
  destruct (nullish stagedOverride (env_staged w)) as [raw|];
    [destruct (truthy raw) |]; destruct (git_staged w); try apply Hmd;
    split; reflexivity.
Qed.

(** Without explicit override a non-empty [DOCS_INDEX_KEEPER_STAGED] is
    the source: git is not run and the world stays as it is. *)
Theorem getStagedMdFiles_environment (raw : string) (w : World) :
  env_staged w = Some raw ->
  raw <> "" ->
  getStagedMdFiles None w = Ok (mdLines raw) w.
Proof.
  intros Henv Hraw. rewrite getStagedMdFiles_cases, Henv. cbn [nullish].
  unfold truthy. destruct (String.eqb_spec raw ""); [contradiction |].
  now destruct (git_staged w).
Qed.

Lemma getStagedMdFiles_environment_witness :
  getStagedMdFiles None worldWithEnv
  = Ok ["docs/foo.md"; "docs/bar.md"] worldWithEnv.
Proof.
  apply (getStagedMdFiles_environment
           ("docs/foo.md" ++ nl ++ "docs/bar.md" ++ nl) worldWithEnv);
    [reflexivity | discriminate].
Defined.

(** ** What the table parser returns *)

Lemma upTo_spec (stop : ascii) (s g rest : string) :
  upTo stop s = Some (g, rest) ->
  lacks stop g = true /\ s = g ++ String stop rest.
Proof.
  revert g rest; induction s as [|c s IH]; intros g rest; simpl;
    [discriminate |].
  destruct (Ascii.eqb c stop) eqn:Hc.
  - intros [= <- <-]. apply Ascii.eqb_eq in Hc. subst c. now split.
  - destruct (upTo stop s) as [[g' rest']|]; [| discriminate].
    intros [= <- <-]. destruct (IH g' rest' eq_refl) as [Hg ->].
    split; [simpl; now rewrite Hc, Hg | reflexivity].
Qed.

Lemma lacks_skipSpaces (c : ascii) (s : string) :
  lacks c s = true -> lacks c (skipSpaces s) = true.
Proof.
  induction s as [|d s IH]; simpl; [reflexivity |].
  intros Hs. destruct (isSpace d); [| exact Hs].
  apply andb_true_iff in Hs as [_ Hs]. now apply IH.
Qed.

(** The two groups of the link pattern: not empty, the first without
    [\]], the second without [)], and both made of characters of the line. *)
Lemma linkAt_spec (s t p : string) :
  linkAt s = Some (t, p) ->
  t <> "" /\ lacks "]" t = true /\ p <> "" /\ lacks ")" p = true
  /\ forall c, lacks c s = true -> lacks c t = true /\ lacks c p = true.
Proof.
  unfold linkAt. destruct s as [|c0 r]; [discriminate |].
  destruct (Ascii.eqb_spec c0 "|") as [-> | Hne].
  2:{ destruct c0 as [[] [] [] [] [] [] [] []]; try discriminate.
      now contradiction Hne. }
  destruct (skipSpaces r) as [|c1 r1] eqn:Hskip; [discriminate |].
  destruct (Ascii.eqb_spec c1 "[") as [-> | Hne].
  2:{ destruct c1 as [[] [] [] [] [] [] [] []]; try discriminate.
      now contradiction Hne. }
  destruct (upTo "]" r1) as [[g rest]|] eqn:Hup1; [| discriminate].
  destruct g as [|c t']; [discriminate |].
  destruct rest as [|c2 r2]; [discriminate |].
  destruct (Ascii.eqb_spec c2 "(") as [-> | Hne].
  2:{ destruct c2 as [[] [] [] [] [] [] [] []]; try discriminate.
      now contradiction Hne. }
  destruct (upTo ")" r2) as [[g2 r3]|] eqn:Hup2; [| discriminate].
  destruct g2 as [|d p']; [discriminate |].
  destruct (skipSpaces r3) as [|c3 r4]; [discriminate |].
  destruct (Ascii.eqb_spec c3 "|") as [-> | Hne].
  2:{ destruct c3 as [[] [] [] [] [] [] [] []]; try discriminate.
      now contradiction Hne. }
  intros [= <- <-].
  apply upTo_spec in Hup1 as [Ht Hr1]. apply upTo_spec in Hup2 as [Hp Hr2].
  split; [discriminate |]. split; [exact Ht |].
  split; [discriminate |]. split; [exact Hp |].
  intros x Hx. cbn [lacks] in Hx. apply andb_true_iff in Hx as [_ Hx].
  apply (lacks_skipSpaces x) in Hx. rewrite Hskip in Hx.
  cbn [lacks] in Hx. apply andb_true_iff in Hx as [_ Hx].
  rewrite Hr1, lacks_append in Hx. apply andb_true_iff in Hx as [Hxt Hx].
  split; [exact Hxt |].
  cbn [lacks] in Hx. apply andb_true_iff in Hx as [_ Hx].
  apply andb_true_iff in Hx as [_ Hx].
  rewrite Hr2, lacks_append in Hx. now apply andb_true_iff in Hx as [Hxp _].
Qed.

Lemma linkMatch_spec (s t p : string) :
  linkMatch s = Some (t, p) ->
  t <> "" /\ lacks "]" t = true /\ p <> "" /\ lacks ")" p = true
  /\ forall c, lacks c s = true -> lacks c t = true /\ lacks c p = true.
Proof.
  induction s as [|c0 s IH].
  - cbn [linkMatch]. destruct (linkAt "") as [m|] eqn:Hat; [| discriminate].
    intros [= ->]. now apply linkAt_spec.
  - cbn [linkMatch].
    destruct (linkAt (String c0 s)) as [m|] eqn:Hat.
    + intros [= ->]. now apply linkAt_spec.
    + intros Hm. destruct (IH Hm) as (Ht & Htb & Hp & Hpb & Hall).
      repeat split; try assumption;
        cbn [lacks] in H; apply andb_true_iff in H as [_ H];
        now apply Hall.
Qed.

(** One line keeps the rows well formed. *)
Lemma parseLine_wellFormed (st : ParseState) (line : string) :
  lacks LF line = true ->
  Forall (fun r => wellFormedRow r = true) (rows st) ->
  Forall (fun r => wellFormedRow r = true) (rows (stateOf (parseLine st line))).
Proof.
  intros Hline Hrows. unfold parseLine.
  destruct (isTableLine line).
  - destruct (linkMatch line) as [[t p]|] eqn:Hm; cbn [stateOf rows];
      [| exact Hrows].
    apply Forall_app. split; [exact Hrows |]. constructor; [| constructor].
    destruct (linkMatch_spec _ _ _ Hm) as (Ht & Htb & Hp & Hpb & Hall).
    destruct (Hall LF Hline) as [Htl Hpl].
    unfold wellFormedRow. cbn [title path purpose default].
    rewrite Htb, Htl, Hpb, Hpl.
    apply String.eqb_neq in Ht, Hp. now rewrite Ht, Hp.
  - destruct (inTable st && negb (startsWith "|" (trim line)));
      exact Hrows.
Qed.

Lemma parseLines_wellFormed (lines : list string) :
  Forall (fun l => lacks LF l = true) lines ->
  forall st,
    Forall (fun r => wellFormedRow r = true) (rows st) ->
    Forall (fun r => wellFormedRow r = true) (parseLines lines st).
Proof.
  induction 1 as [|l ls Hl Hls IH]; intros st Hrows; cbn [parseLines];
    [exact Hrows |].
  pose proof (parseLine_wellFormed st l Hl Hrows) as Hstep.
  destruct (parseLine st l) as [st' | st']; [now apply IH | exact Hstep].
Qed.

(** Every row the parser returns is well formed: title and path are not
    empty and are free of line feeds, the title has no [\]] and the path no
    [)]; and it has no purpose. *)
Theorem parseTable_rows_wellFormed (readmeContent : string) :
  Forall (fun r => wellFormedRow r = true /\ purpose r = None)
         (parseTable readmeContent).
Proof.
  assert (forall lines st,
            Forall (fun r => purpose r = None) (rows st) ->
            Forall (fun r => purpose r = None) (parseLines lines st)) as Hnone.
  { induction lines as [|l ls IH]; intros st Hst; cbn [parseLines];
      [exact Hst |].
    unfold parseLine. destruct (isTableLine l).
    - destruct (linkMatch l) as [[t p]|]; apply IH; cbn [rows]; [| exact Hst].
      apply Forall_app. split; [exact Hst | now repeat constructor].
    - destruct (inTable st && negb (startsWith "|" (trim l)));
        [exact Hst | now apply IH]. }
  pose proof (parseLines_wellFormed (splitLines readmeContent)
                (splitLines_lacks_LF readmeContent) initialParse
                ltac:(constructor)) as Hwf.
  pose proof (Hnone (splitLines readmeContent) initialParse ltac:(constructor))
    as Hpurpose.
  unfold parseTable. change {| inTable := false; rows := [] |} with initialParse.
  rewrite Forall_forall in *. intros r Hr.
  split; [now apply Hwf | now apply Hpurpose].
Qed.

(** A text in which no line starts with [|] has no rows. *)
Lemma parseLines_no_pipe (lines : list string) (st : ParseState) :
  Forall (fun l => startsWith "|" l = false) lines ->
  inTable st = false ->
  parseLines lines st = rows st.
Proof.
  induction 1 as [|l ls Hl Hls IH]; intros Hst; cbn [parseLines];
    [reflexivity |].
  unfold parseLine. rewrite isTableLine_startsWith, Hl, Hst.
  cbn [andb]. now apply IH.
Qed.

Lemma scanLines_app_break (l1 l2 : list string) (st st1 : ParseState) :
  scanLines l1 st = Break st1 ->
  parseLines (l1 ++ l2) st = rows st1.
Proof.
  revert st; induction l1 as [|l ls IH]; intros st; cbn [scanLines];
    [discriminate |].
  cbn [List.app parseLines].
  destruct (parseLine st l); [apply IH | now intros [= ->]].
Qed.

(** Only the first table block is read: once the scan has left the
    block, nothing that follows changes the result. *)
Theorem parseTable_stops_after_first_block (text rest : string)
    (st : ParseState) :
  scanLines (splitLines text) initialParse = Break st ->
  parseTable (text ++ nl ++ rest) = parseTable text.
Proof.
  intros Hbreak. unfold parseTable.
  change {| inTable := false; rows := [] |} with initialParse.
  rewrite splitLines_append_nl, (scanLines_app_break _ _ _ _ Hbreak).
  rewrite parseLines_scanLines, Hbreak. reflexivity.
Qed.

Lemma parseTable_stops_after_first_block_witness :
  parseTable (twoTables ++ nl ++ secondTable) = parseTable twoTables.
Proof.
  apply (parseTable_stops_after_first_block twoTables secondTable
           {| inTable := true;
              rows := [{| title := "a"; path := "a.md"; purpose := None |}] |}).
  reflexivity.
Defined.

(** Rendering and parsing are inverse to each other on rows that read
    back: a table made of a text the scan gets through, a line feed and the
    rendered rows parses to the rows of the text followed by the rendered
    rows, each without its purpose. *)
Theorem parseTable_rendered_rows (text : string) (st : ParseState)
    (newRows : list IndexRow) :
  scanLines (splitLines text) initialParse = Next st ->
  forallb readsBack newRows = true ->
  parseTable (text ++ nl ++ joinLines (map renderRow newRows))
  = (rows st ++ map asParsed newRows)%list.
Proof.
  intros Hscan Hall. unfold parseTable.
  change {| inTable := false; rows := [] |} with initialParse.
  rewrite splitLines_append_nl, (parseLines_app _ _ _ _ Hscan).
  destruct newRows as [|r rs].
  - cbn [map joinLines splitLines parseLines]. rewrite app_nil_r.
    unfold parseLine. change (isTableLine "") with false. cbv iota.
    now destruct (inTable st && negb (startsWith "|" (trim ""))).
  - rewrite splitLines_joinLines.
    + rewrite parseLines_scanLines. destruct st as [b base].
      now rewrite (scanLines_rendered (r :: rs) Hall b base).
    + discriminate.
    + apply Forall_forall. intros x Hx.
      apply list_elem_of_fmap in Hx as [r' [-> Hr']].
      rewrite forallb_forall in Hall.
      apply list_elem_of_In in Hr'. specialize (Hall r' Hr').
      unfold readsBack in Hall. apply andb_true_iff in Hall as [Hone _].
      now apply bool_decide_eq_true in Hone.
Qed.

Lemma parseTable_rendered_rows_witness :
  parseTable (tableHead ++ nl ++ joinLines (map renderRow [rowB; rowNewDoc]))
  = [asParsed rowB; asParsed rowNewDoc].
Proof.
  apply (parseTable_rendered_rows tableHead
           {| inTable := true; rows := [] |} [rowB; rowNewDoc]);
    reflexivity.
Defined.

(** A text without [|] at the start of any line parses to no rows. *)
Theorem parseTable_without_table (readmeContent : string) :
  Forall (fun l => startsWith "|" l = false) (splitLines readmeContent) ->
  parseTable readmeContent = [].
Proof. intros Hall. unfold parseTable. now apply parseLines_no_pipe. Qed.

Lemma parseTable_without_table_witness : parseTable "no table here" = [].
Proof.
  apply (parseTable_without_table "no table here").
  repeat constructor.
Defined.

(** ** Where [insertRows] writes *)


(** [find] returns the first occurrence. *)
Lemma find_first (pat : string) (n : nat) :
  forall (s : string) (k : nat),
    (forall i, (i < n)%nat -> startsWith pat (str_drop i s) = false) ->
    startsWith pat (str_drop n s) = true ->
    find pat s k = Some (k + n)%nat.
Proof.
  induction n as [|n IH]; intros s k Hbefore Hat.
  - simpl in Hat. destruct s; simpl; rewrite Hat; f_equal; lia.
  - pose proof (Hbefore 0%nat ltac:(lia)) as H0. simpl in H0.
    destruct s as [|c s].
    + simpl in Hat. congruence.
    + cbn [find]. rewrite H0. rewrite (IH s (S k)).
      * f_equal. lia.
      * intros i Hi. apply (Hbefore (S i)). lia.
      * exact Hat.
Qed.


(** Sentinel insertion: the rows go in directly before the first
    occurrence of the sentinel; the text before it and the text from the
    sentinel on stay as they are. *)
Theorem insertRows_before_sentinel (readme pre post sentinelPattern : string)
    (newRows : list IndexRow) :
  readme = pre ++ sentinelPattern ++ post ->
  (forall i, (i < String.length pre)%nat ->
             startsWith sentinelPattern (str_drop i readme) = false) ->
  insertRows readme newRows sentinelPattern
  = pre ++ joinLines (map renderRow newRows) ++ nl ++ sentinelPattern ++ post.
Proof.
  intros Hreadme Hfirst.
  assert (indexOf sentinelPattern readme = Z.of_nat (String.length pre)) as Hidx.
  { unfold indexOf, indexOfFrom.
    replace (clamp readme 0) with 0%nat by (unfold clamp; lia).
    change (str_drop 0 readme) with readme.
    rewrite (find_first sentinelPattern (String.length pre) readme 0 Hfirst).
    - reflexivity.
    - rewrite Hreadme, str_drop_append. apply startsWith_app. }
  rewrite insertRows_splice, insertIdx_sentinel by lia.
  rewrite Hidx, Nat2Z.id, Hreadme, str_take_append, str_drop_append.
  reflexivity.
Qed.

Lemma insertRows_before_sentinel_witness :
  insertRows (tableHead ++ nl ++ "| [archive/](archive/) | Historical |")
    [rowB] defaultSentinel
  = (tableHead ++ nl) ++ joinLines (map renderRow [rowB]) ++ nl
    ++ defaultSentinel ++ "(archive/) | Historical |".
Proof.
  apply (insertRows_before_sentinel
           (tableHead ++ nl ++ "| [archive/](archive/) | Historical |")
           (tableHead ++ nl) "(archive/) | Historical |" defaultSentinel [rowB]).
  - reflexivity.
  - intros i Hi.
    do 36 (destruct i as [|i]; [reflexivity |]).
    vm_compute in Hi. lia.
Defined.




(** ** The rows [computeNewRows] makes *)

Section NewRows.

Context `{Host}.

Lemma computeNewRowsLoop_rows (root : string) (config : DocsIndexKeeperConfig)
    (remove : string -> string) (stagedDocs : list string) :
  regExpRemove ("^" ++ docsDir config ++ "/") = Some remove ->
  forall (existingPaths : gset string) (acc : list IndexRow) (w : World)
         toAdd existingPaths' w',
    computeNewRowsLoop root stagedDocs existingPaths config acc w
    = Ok (toAdd, existingPaths') w' ->
    exists new,
      toAdd = (acc ++ new)%list
      /\ sublist (map path new) (map remove stagedDocs)
      /\ Forall (fun r => exists p heading,
                   p ∈ stagedDocs
                   /\ getFirstHeading root p w = Ok heading w
                   /\ r = rowFor (remove p) heading) new.
Proof.
  intros Hre. induction stagedDocs as [|p rest IH];
    intros existingPaths acc w toAdd existingPaths' w' Hrun.
  - simpl in Hrun. injection Hrun as <- _ _. exists [].
    rewrite app_nil_r. repeat split; constructor.
  - rewrite computeNewRowsLoop_cons, Hre in Hrun.
    destruct (bool_decide (remove p ∈ existingPaths)).
    + apply IH in Hrun as [new [-> [Hsub Hall]]]. exists new.
      split; [reflexivity |]. split; [now apply sublist_cons |].
      eapply Forall_impl; [exact Hall |]. intros r (q & heading & Hq & Hh & ->).
      exists q, heading. repeat split; [now right | exact Hh].
    + destruct (getFirstHeading_outcome root p w)
        as [[heading Hh] | (u & _ & _ & Hh)];
        rewrite Hh in Hrun; [| discriminate].
      apply IH in Hrun as [new [-> [Hsub Hall]]].
      exists (rowFor (remove p) heading :: new).
      split; [now rewrite <- List.app_assoc |].
      split; [now apply sublist_skip |].
      constructor.
      * exists p, heading. repeat split; [now left | exact Hh].
      * eapply Forall_impl; [exact Hall |].
        intros r (q & h' & Hq & Hh' & ->).
        exists q, h'. repeat split; [now right | exact Hh'].
Qed.

(** Order preservation and completeness of the row diff.  With a
    [docsDir] from which a regular expression can be built, and with
    candidates each of which is a file that can be read or does not exist
    (none is a directory or a file that may not be read),
    [computeNewRows] returns; the paths of its rows are, in candidate
    order, a selection of the stripped candidate paths; every stripped
    candidate path is in the given set or among the rows; and each row has
    the path without a final [.md] as title and, as purpose, the first
    heading of the candidate file or else the title with spaces for dashes. *)
Theorem computeNewRows_in_candidate_order (root : string)
    (config : DocsIndexKeeperConfig) (remove : string -> string)
    (stagedDocs : list string) (existingPaths : gset string) (w : World) :
  regExpRemove ("^" ++ docsDir config ++ "/") = Some remove ->
  (forall p, p ∈ stagedDocs -> unreadable w !! join root p = None) ->
  exists toAdd existingPaths',
    computeNewRows root stagedDocs existingPaths config w
    = Ok (toAdd, existingPaths') w
    /\ sublist (map path toAdd) (map remove stagedDocs)
    /\ (forall p, p ∈ stagedDocs ->
          remove p ∈ existingPaths \/ remove p ∈ map path toAdd)
    /\ Forall (fun r =>
                 title r = dropMdSuffix (path r)
                 /\ exists p heading,
                      p ∈ stagedDocs /\ path r = remove p
                      /\ getFirstHeading root p w = Ok heading w
                      /\ purpose r
                         = Some (orElse heading (dashesToSpaces (title r))))
              toAdd.
Proof.
  intros Hre Hread. unfold computeNewRows.
  destruct (computeNewRowsLoop_returns root config remove stagedDocs w Hre
              (fun p Hp => Hread p (proj2 (list_elem_of_In _ _) Hp))
              existingPaths []) as [toAdd [S' Hrun]].
  exists toAdd, S'. split; [exact Hrun |].
  destruct (computeNewRowsLoop_rows root config remove stagedDocs Hre
              _ _ _ _ _ _ Hrun) as [new [Heq [Hsub Hall]]].
  simpl in Heq. subst new.
  destruct (computeNewRowsLoop_covers root config remove stagedDocs Hre
              _ _ _ _ _ _ Hrun) as [_ Hcov].
  apply computeNewRowsLoop_spec in Hrun as [new [Heq [_ [_ Hset]]]].
  simpl in Heq. subst new.
  split; [exact Hsub |]. split.
  - intros p Hp. now apply Hset, Hcov.
  - eapply Forall_impl; [exact Hall |].
    intros r (p & heading & Hp & Hh & ->).
    split; [reflexivity |]. exists p, heading. now repeat split.
Qed.

End NewRows.

Lemma computeNewRows_in_candidate_order_witness :
  exists toAdd existingPaths',
    computeNewRows (H := plainHost) "/repo"
      ["docs/new-doc.md"; "docs/a.md"; "docs/new-doc.md"] {["a.md"]}
      testConfig repoWithSentinel
    = Ok (toAdd, existingPaths') repoWithSentinel
    /\ sublist (map path toAdd)
         (map (fun s => if startsWith "docs/" s then str_drop 5 s else s)
              ["docs/new-doc.md"; "docs/a.md"; "docs/new-doc.md"])
    /\ (forall p, p ∈ ["docs/new-doc.md"; "docs/a.md"; "docs/new-doc.md"] ->
          (if startsWith "docs/" p then str_drop 5 p else p)
            ∈ ({["a.md"]} : gset string)
          \/ (if startsWith "docs/" p then str_drop 5 p else p)
               ∈ map path toAdd)
    /\ Forall (fun r =>
                 title r = dropMdSuffix (path r)
                 /\ exists p heading,
                      p ∈ ["docs/new-doc.md"; "docs/a.md"; "docs/new-doc.md"]
                      /\ path r
                         = (if startsWith "docs/" p then str_drop 5 p else p)
                      /\ getFirstHeading (H := plainHost) "/repo" p
                           repoWithSentinel
                         = Ok heading repoWithSentinel
                      /\ purpose r
                         = Some (orElse heading (dashesToSpaces (title r))))
              toAdd.
Proof.
  apply (computeNewRows_in_candidate_order (H := plainHost) "/repo" testConfig
           (fun s => if startsWith "docs/" s then str_drop 5 s else s)
           ["docs/new-doc.md"; "docs/a.md"; "docs/new-doc.md"] {["a.md"]}
           repoWithSentinel).
  - reflexivity.
  - intros p _. apply lookup_empty.
Defined.

(** ** First heading *)

Lemma isLineTerminator_false (c : ascii) :
  isLineTerminator c = false ->
  Ascii.eqb c LF = false /\ Ascii.eqb c CR = false.
Proof.
  destruct c as [[] [] [] [] [] [] [] []]; vm_compute; intros Hc;
    first [discriminate | split; reflexivity].
Qed.

Lemma lineRun_noLineTerminator (s : string) :
  noLineTerminator (lineRun s) = true.
Proof.
  induction s as [|c s IH]; simpl; [reflexivity |].
  destruct (isLineTerminator c) eqn:Hc; simpl; [reflexivity |].
  now rewrite Hc, IH.
Qed.

Lemma noLineTerminator_lacks (s : string) :
  noLineTerminator s = true -> lacks LF s = true /\ lacks CR s = true.
Proof.
  induction s as [|c s IH]; simpl; [now split |].
  intros Hs. apply andb_true_iff in Hs as [Hc Hs].
  apply negb_true_iff, isLineTerminator_false in Hc as [Hlf Hcr].
  destruct (IH Hs) as [-> ->]. now rewrite Hlf, Hcr.
Qed.

Lemma captureLine_spec (s g : string) :
  captureLine s = Some g -> g <> "" /\ noLineTerminator g = true.
Proof.
  unfold captureLine. pose proof (lineRun_noLineTerminator s) as Hrun.
  destruct (lineRun s) as [|c r]; [discriminate |].
  intros [= <-]. split; [discriminate | exact Hrun].
Qed.

Lemma spacesThenLine_spec (s g : string) :
  spacesThenLine s = Some g -> g <> "" /\ noLineTerminator g = true.
Proof.
  induction s as [|c s IH]; simpl; [discriminate |].
  destruct (isSpace c); [| discriminate].
  destruct (spacesThenLine s) as [g'|].
  - intros [= <-]. now apply IH.
  - apply captureLine_spec.
Qed.

Lemma hashesThenLine_spec (s g : string) :
  hashesThenLine s = Some g -> g <> "" /\ noLineTerminator g = true.
Proof.
  induction s as [|c s IH]; simpl; [discriminate |].
  destruct (Ascii.eqb c "#"); [| discriminate].
  destruct (hashesThenLine s) as [g'|].
  - intros [= <-]. now apply IH.
  - apply spacesThenLine_spec.
Qed.

Lemma headingFrom_spec (s : string) :
  forall (b : bool) (g : string),
    headingFrom b s = Some g -> g <> "" /\ noLineTerminator g = true.
Proof.
  induction s as [|c s IH]; intros b g; cbn [headingFrom].
  - destruct b; [| discriminate].
    destruct (hashesThenLine "") eqn:Hh; [| discriminate].
    intros [= <-]. now apply hashesThenLine_spec in Hh.
  - destruct (if b then hashesThenLine (String c s) else None) as [g'|] eqn:Hh.
    + intros [= <-]. destruct b; [| discriminate].
      now apply hashesThenLine_spec in Hh.
    + apply IH.
Qed.

Section Heading.

Context `{Host}.

(** A heading [getFirstHeading] returns is trimmed and is one line. *)
Lemma getFirstHeading_heading (root filePath : string) (w w' : World)
    (h : string) :
  getFirstHeading root filePath w = Ok (Some h) w' ->
  trim h = h /\ lacks LF h = true /\ lacks CR h = true.
Proof.
  rewrite getFirstHeading_cases.
  destruct (files w !! join root filePath) as [content|] eqn:Hfile.
  2:{ now destruct (unreadable w !! join root filePath). }
  unfold headingOf, headingMatch.
  destruct (headingFrom true content) as [g|] eqn:Hg; [| discriminate].
  intros [= <- _].
  apply headingFrom_spec in Hg as [_ Hg].
  apply noLineTerminator_lacks in Hg as [Hlf Hcr].
  split; [apply trim_idempotent |]. split; now apply lacks_trim.
Qed.

(** [getFirstHeading] changes nothing.  It throws only on a path that
    exists and cannot be read, a directory or a file that may not be
    read, and then with the error of the read.  When it returns, the
    answer for a path that is no file is [null], and a heading it returns
    is trimmed and has no line terminator. *)
Theorem getFirstHeading_result (root filePath : string) (w : World) :
  match getFirstHeading root filePath w with
  | Ok r w' =>
      w' = w
      /\ (files w !! join root filePath = None -> r = None)
      /\ forall h, r = Some h ->
           trim h = h /\ lacks LF h = true /\ lacks CR h = true
  | Throw e w' =>
      w' = w
      /\ files w !! join root filePath = None
      /\ exists u, unreadable w !! join root filePath = Some u
                   /\ e = readError u
  end.
Proof.
  destruct (getFirstHeading root filePath w) as [r w' | e w'] eqn:Hr.
  - pose proof (getFirstHeading_heading root filePath w w') as Hheading.
    rewrite getFirstHeading_cases in Hr. split; [| split].
    + destruct (files w !! join root filePath);
        [| destruct (unreadable w !! join root filePath)]; congruence.
    + intros Hfile. rewrite Hfile in Hr.
      destruct (unreadable w !! join root filePath); congruence.
    + intros h ->. apply Hheading. rewrite getFirstHeading_cases.
      exact Hr.
  - rewrite getFirstHeading_cases in Hr.
    destruct (files w !! join root filePath) as [content|]; [discriminate |].
    destruct (unreadable w !! join root filePath) as [u|]; [| discriminate].
    injection Hr as <- <-. repeat split. now exists u.
Qed.

End Heading.

Lemma lineRun_append (a rest : string) :
  noLineTerminator a = true -> endsLine rest = true ->
  lineRun (a ++ rest) = a.
Proof.
  intros Ha Hrest. induction a as [|c a IH]; simpl.
  - destruct rest as [|d r]; [reflexivity |]. simpl in *. now rewrite Hrest.
  - simpl in Ha. apply andb_true_iff in Ha as [Hc Ha].
    apply negb_true_iff in Hc. now rewrite Hc, (IH Ha).
Qed.

(** White space, then a text with something to show: the pattern takes
    the text from its first character that is not white space. *)
Lemma spacesThenLine_text (t rest : string) :
  noLineTerminator t = true -> endsLine rest = true ->
  trimStart t <> "" ->
  forall sp, isSpace sp = true ->
    spacesThenLine (String sp (t ++ rest)) = Some (trimStart t).
Proof.
  intros Ht Hrest. induction t as [|c t IH]; intros Hne sp Hsp;
    [now contradiction Hne |].
  cbn [spacesThenLine]. rewrite Hsp. cbn [append trimStart] in *.
  simpl in Ht. apply andb_true_iff in Ht as [Hc Ht].
  destruct (isSpace c) eqn:Hspc.
  - change (String c (t ++ rest)) with (String c (t ++ rest)).
    now rewrite (IH Ht Hne c Hspc).
  - cbn [spacesThenLine]. rewrite Hspc. unfold captureLine.
    change (String c (t ++ rest)) with (String c t ++ rest).
    rewrite lineRun_append; [reflexivity | | exact Hrest].
    simpl. now rewrite Hc, Ht.
Qed.

Lemma hashesThenLine_text (n : nat) (sp : ascii) (t rest : string) :
  isSpace sp = true ->
  noLineTerminator t = true -> endsLine rest = true ->
  trimStart t <> "" ->
  hashesThenLine (repeatChar "#" (S n) ++ String sp (t ++ rest))
  = Some (trimStart t).
Proof.
  intros Hsp Ht Hrest Hne. induction n as [|n IH].
  - cbn [repeatChar append hashesThenLine]. rewrite Ascii.eqb_refl.
    assert (Ascii.eqb sp "#" = false) as Hhash.
    { destruct (Ascii.eqb_spec sp "#") as [-> |]; [discriminate | reflexivity]. }
    rewrite Hhash. now apply spacesThenLine_text.
  - change (repeatChar "#" (S (S n)) ++ String sp (t ++ rest))
      with (String "#" (repeatChar "#" (S n) ++ String sp (t ++ rest))).
    cbn [hashesThenLine]. rewrite Ascii.eqb_refl. now rewrite IH.
Qed.

Lemma headingFrom_preamble (pre s : string) :
  forall b, skipsPreamble b pre = true ->
            headingFrom b (pre ++ s) = headingFrom true s.
Proof.
  induction pre as [|c pre IH]; intros b Hpre.
  - simpl in Hpre. now subst b.
  - cbn [skipsPreamble] in Hpre. apply andb_true_iff in Hpre as [Hc Hpre].
    cbn [append headingFrom].
    assert ((if b then hashesThenLine (String c (pre ++ s)) else None) = None)
      as ->.
    { destruct b; [| reflexivity]. cbn [andb] in Hc.
      apply negb_true_iff in Hc. cbn [hashesThenLine]. now rewrite Hc. }
    now apply IH.
Qed.

Section HeadingLine.

Context `{Host}.

(** The first heading is found.  When the file consists of lines that do
    not start with [#], then one or more [#], a white-space character and a
    text that has something to show, up to the end of its line,
    [getFirstHeading] answers that text, trimmed.  The white-space
    character may be a line feed: a line of nothing but [#] takes the next
    line as its heading. *)
Theorem getFirstHeading_heading_line (root filePath : string) (w : World)
    (pre : string) (n : nat) (sp : ascii) (t rest : string) :
  files w !! join root filePath
  = Some (pre ++ repeatChar "#" (S n) ++ String sp (t ++ rest)) ->
  skipsPreamble true pre = true ->
  isSpace sp = true ->
  noLineTerminator t = true ->
  trim t <> "" ->
  endsLine rest = true ->
  getFirstHeading root filePath w = Ok (Some (trim t)) w.
Proof.
  intros Hfile Hpre Hsp Ht Hne Hrest.
  assert (trimStart t <> "") as Hstart.
  { intros Hs. apply Hne. unfold trim. now rewrite Hs. }
  unfold getFirstHeading.
  run_first (existsSync_found _ _ _ Hfile). cbv beta iota delta [negb].
  run_first (readFileSync_found _ _ _ Hfile).
  unfold headingMatch.
  rewrite (headingFrom_preamble pre _ true Hpre).
  assert (headingFrom true (repeatChar "#" (S n) ++ String sp (t ++ rest))
          = Some (trimStart t)) as ->.
  { change (repeatChar "#" (S n) ++ String sp (t ++ rest))
      with (String "#" (repeatChar "#" n ++ String sp (t ++ rest))).
    cbn [headingFrom].
    change (String "#" (repeatChar "#" n ++ String sp (t ++ rest)))
      with (repeatChar "#" (S n) ++ String sp (t ++ rest)).
    now rewrite (hashesThenLine_text n sp t rest Hsp Ht Hrest Hstart). }
  unfold ret. f_equal. f_equal. unfold trim.
  pose proof (trimStart_head (trimStart t)) as Hhead.
  assert (trimStart (trimStart t) = trimStart t) as ->; [| reflexivity].
  pose proof (trimStart_head t) as Hh.
  destruct (trimStart t) as [|c r]; [reflexivity |]. simpl. now rewrite Hh.
Qed.

End HeadingLine.

Lemma getFirstHeading_heading_line_witness :
  getFirstHeading (H := plainHost) "/repo" "doc.md" repoWithTitle
  = Ok (Some "My Title") repoWithTitle.
Proof.
  apply (getFirstHeading_heading_line (H := plainHost) "/repo" "doc.md"
           repoWithTitle "" 0 " "%char "My Title" (nl ++ nl ++ "Body"));
    try reflexivity.
  discriminate.
Defined.

(** ** Rows made of plain paths *)

Lemma lacks_str_take (c : ascii) (n : nat) (s : string) :
  lacks c s = true -> lacks c (str_take n s) = true.
Proof.
  revert s; induction n as [|n IH]; intros [|d s]; simpl; try reflexivity.
  intros Hs. apply andb_true_iff in Hs as [Hd Hs]. now rewrite Hd, IH.
Qed.

Lemma lacks_dropMdSuffix (c : ascii) (s : string) :
  lacks c s = true -> lacks c (dropMdSuffix s) = true.
Proof.
  intros Hs. unfold dropMdSuffix.
  destruct (endsWith ".md" s); [now apply lacks_str_take | exact Hs].
Qed.

Lemma lacks_LF_dashesToSpaces (s : string) :
  lacks LF s = true -> lacks LF (dashesToSpaces s) = true.
Proof.
  induction s as [|c s IH]; simpl; [reflexivity |].
  intros Hs. apply andb_true_iff in Hs as [Hc Hs]. rewrite (IH Hs).
  destruct (Ascii.eqb c "-"); [reflexivity | now rewrite Hc].
Qed.

Lemma str_take_empty (n : nat) (s : string) :
  str_take n s = "" -> n = 0%nat \/ s = "".
Proof. destruct n, s; simpl; try discriminate; auto. Qed.

(** Only [.md] itself loses everything with its suffix. *)
Lemma dropMdSuffix_nonempty (s : string) :
  s <> "" -> s <> ".md" -> dropMdSuffix s <> "".
Proof.
  intros Hne Hmd. unfold dropMdSuffix.
  destruct (endsWith ".md" s) eqn:Hend; [| exact Hne].
  intros Htake. apply str_take_empty in Htake as [Hlen | ->]; [| contradiction].
  apply Hmd. unfold endsWith in Hend. apply andb_true_iff in Hend as [Hle Heq].
  apply Nat.leb_le in Hle. apply String.eqb_eq in Heq.
  simpl in Hle, Heq, Hlen. rewrite Hlen in Heq. exact Heq.
Qed.

(** The row of a plain path and of a heading without line feed is well
    formed. *)
Lemma rowFor_wellFormed (p : string) (heading : option string) :
  plainPath p = true ->
  (forall h, heading = Some h -> lacks LF h = true) ->
  wellFormedRow (rowFor p heading) = true.
Proof.
  unfold plainPath, wellFormedRow, rowFor. cbn [title path purpose default].
  rewrite !andb_true_iff, !negb_true_iff, !String.eqb_neq.
  intros [[[[Hne Hmd] Hb] Hp] Hlf] Hheading.
  repeat split; try assumption; try now apply lacks_dropMdSuffix.
  - now apply dropMdSuffix_nonempty.
  - unfold orElse. destruct heading as [h|].
    + destruct (truthy h); [now apply Hheading |].
      now apply lacks_LF_dashesToSpaces, lacks_dropMdSuffix.
    + now apply lacks_LF_dashesToSpaces, lacks_dropMdSuffix.
Qed.

Section PlainPaths.

Context `{Host}.

(** The rows [computeNewRows] makes of plain paths are well formed,
    whatever the candidate files contain: each renders to one table line
    with a link the parser can read.  When [computeNewRows] makes no rows
    it is because a candidate exists and cannot be read, and it throws
    the error of that read. *)
Theorem computeNewRows_plain_paths (root : string)
    (config : DocsIndexKeeperConfig) (remove : string -> string)
    (stagedDocs : list string) (existingPaths : gset string) (w : World) :
  regExpRemove ("^" ++ docsDir config ++ "/") = Some remove ->
  (forall p, p ∈ stagedDocs -> plainPath (remove p) = true) ->
  match computeNewRows root stagedDocs existingPaths config w with
  | Ok (toAdd, _) _ => Forall (fun r => wellFormedRow r = true) toAdd
  | Throw e _ =>
      exists p u, p ∈ stagedDocs
                  /\ unreadable w !! join root p = Some u
                  /\ e = readError u
  end.
Proof.
  intros Hre Hplain. unfold computeNewRows.
  destruct (computeNewRowsLoop root stagedDocs existingPaths config [] w)
    as [[toAdd S'] w' | e w'] eqn:Hrun.
  - destruct (computeNewRowsLoop_rows root config remove stagedDocs Hre
                _ _ _ _ _ _ Hrun) as [new [Heq [_ Hall]]].
    simpl in Heq. subst new.
    eapply Forall_impl; [exact Hall |].
    intros r (p & heading & Hp & Hh & ->).
    apply rowFor_wellFormed; [now apply Hplain |].
    intros h ->.
    now destruct (getFirstHeading_heading _ _ _ _ _ Hh) as [_ [Hlf _]].
  - apply (computeNewRowsLoop_throws root config remove stagedDocs Hre) in Hrun
      as [_ (p & u & Hp & _ & Hu & ->)].
    exists p, u. repeat split; [now apply list_elem_of_In | exact Hu].
Qed.

End PlainPaths.

Lemma computeNewRows_plain_paths_witness :
  match computeNewRows (H := plainHost) "/repo" ["docs/new-doc.md"] ∅
          testConfig repoWithSentinel with
  | Ok (toAdd, _) _ => Forall (fun r => wellFormedRow r = true) toAdd
  | Throw e _ =>
      exists p u, p ∈ ["docs/new-doc.md"]
                  /\ unreadable repoWithSentinel !! ("/repo" ++ "/" ++ p)
                     = Some u
                  /\ e = readError u
  end.
Proof.
  apply (computeNewRows_plain_paths (H := plainHost) "/repo" testConfig
           (fun s => if startsWith "docs/" s then str_drop 5 s else s)
           ["docs/new-doc.md"] ∅ repoWithSentinel).
  - reflexivity.
  - intros p Hp. apply list_elem_of_singleton in Hp. subst p. reflexivity.
Defined.

(** ** The warning is a side channel *)

Section SideChannel.

Context `{Host}.

Lemma getFirstHeading_files (root filePath : string) (w v : World) :
  files v = files w -> unreadable v = unreadable w ->
  getFirstHeading root filePath v = onWorld v (getFirstHeading root filePath w).
Proof.
  intros Hfiles Hu. rewrite !getFirstHeading_cases, Hfiles, Hu.
  destruct (files w !! join root filePath); [reflexivity |].
  now destruct (unreadable w !! join root filePath).
Qed.

(** The loop reads the files and [docsDir], nothing else. *)
Lemma computeNewRowsLoop_files (root : string)
    (config config' : DocsIndexKeeperConfig) (stagedDocs : list string) :
  docsDir config' = docsDir config ->
  forall (existingPaths : gset string) (acc : list IndexRow) (w v : World),
    files v = files w -> unreadable v = unreadable w ->
    computeNewRowsLoop root stagedDocs existingPaths config' acc v
    = onWorld v (computeNewRowsLoop root stagedDocs existingPaths config acc w).
Proof.
  intros Hdir. induction stagedDocs as [|p rest IH];
    intros existingPaths acc w v Hfiles Hu; [reflexivity |].
  rewrite !computeNewRowsLoop_cons, Hdir.
  destruct (regExpRemove ("^" ++ docsDir config ++ "/")) as [remove|];
    [| reflexivity].
  destruct (bool_decide (remove p ∈ existingPaths)); [now apply IH |].
  rewrite (getFirstHeading_files root p w v Hfiles Hu).
  destruct (getFirstHeading_outcome root p w)
    as [[heading ->] | (u & _ & _ & ->)]; [| reflexivity].
  cbn [onWorld]. now apply IH.
Qed.

(** The root-level warning is a side channel: with other settings for it
    [update] gives the same result, or the same error, and leaves the same
    files and the same write log. *)
Theorem update_ignores_warning_settings (root : string)
    (config : DocsIndexKeeperConfig) (allowed : list string) (flag : bool)
    (stagedOverride : option string) (w : World) :
  match update root config stagedOverride w,
        update root (withWarning config allowed flag) stagedOverride w with
  | Ok r w1, Ok r' w1' =>
      r = r' /\ files w1 = files w1' /\ writes w1 = writes w1'
  | Throw e w1, Throw e' w1' =>
      e = e' /\ files w1 = files w1' /\ writes w1 = writes w1'
  | _, _ => False
  end.
Proof.
  rewrite !update_steps. cbn [withWarning indexFile].
  destruct (getStagedMdFiles stagedOverride w) as [staged w1 | e w1];
    [| now repeat split].
  destruct (length staged =? 0)%nat; [now repeat split |].
  cbv zeta.
  pose proof (warnRootMd_unreadable staged config w1) as Hu2.
  pose proof (warnRootMd_unreadable staged (withWarning config allowed flag) w1)
    as Hv2u.
  destruct (warnRootMd_returns staged config w1)
    as [w2 [Hwarn [[Hf2 Hw2] _]]].
  destruct (warnRootMd_returns staged (withWarning config allowed flag) w1)
    as [v2 [Hwarn' [[Hg2 Hv2] _]]].
  rewrite Hwarn in Hu2 |- *. rewrite Hwarn' in Hv2u |- *.
  cbn [world_of] in Hu2, Hv2u |- *.
  change (getStagedDocs staged (withWarning config allowed flag))
    with (getStagedDocs staged config).
  destruct (length (getStagedDocs staged config) =? 0)%nat;
    [repeat split; congruence |].
  rewrite Hf2, Hg2, Hu2, Hv2u.
  destruct (files w1 !! join root (indexFile config)) as [readme|].
  2:{ destruct (unreadable w1 !! join root (indexFile config));
        repeat split; congruence. }
  unfold computeNewRows.
  rewrite (computeNewRowsLoop_files root config (withWarning config allowed flag)
             _ eq_refl _ _ w2 v2) by congruence.
  pose proof (readOnly_computeNewRowsLoop root (getStagedDocs staged config)
                config (pathSet (parseTable readme)) [] w2) as Hro.
  destruct (computeNewRowsLoop root (getStagedDocs staged config)
              (pathSet (parseTable readme)) config [] w2)
    as [res w3 | e w3]; cbn [onWorld]; simpl in Hro; subst w3;
    [| repeat split; congruence].
  destruct (length (fst res) =? 0)%nat; [repeat split; congruence |].
  cbn [writeFileSync files writes]. repeat split; congruence.
Qed.

End SideChannel.

(** * The command line *)

(** ** [add] *)

Section AddCommand.
Context `{Host}.

(** [existsSync], by what [existsIn] says. *)
Lemma existsSync_existsIn (p : string) (w : World) :
  existsSync p w = Ok (existsIn w p) w.
Proof. reflexivity. Qed.

Lemma existsIn_found (p content : string) (w : World) :
  files w !! p = Some content -> existsIn w p = true.
Proof. intros Hp. unfold existsIn. now rewrite Hp. Qed.

(** A read that returns has found a file. *)
Lemma readFileSync_returned (p content : string) (w w' : World) :
  readFileSync p w = Ok content w' -> files w !! p = Some content /\ w' = w.
Proof.
  unfold readFileSync. destruct (files w !! p) as [c|].
  - now intros [= <- <-].
  - now destruct (unreadable w !! p).
Qed.



(** The docs-relative path of [add]: the argument itself, or the
    argument without the prefix the regular expression removes; the
    only failure is that of the regular expression. *)
Lemma addRel_cases (config : DocsIndexKeeperConfig) (pathArg : string) (p : Process) :
  (exists rel, addRel config pathArg p = Returned rel p
     /\ (startsWith (docsDir config ++ "/") pathArg = false -> rel = pathArg)
     /\ (startsWith (docsDir config ++ "/") pathArg = true ->
         exists remove, regExpRemove ("^" ++ docsDir config ++ "/") = Some remove
                        /\ rel = remove pathArg))
  \/ (addRel config pathArg p = Uncaught RegExpSyntaxError p
      /\ startsWith (docsDir config ++ "/") pathArg = true
      /\ regExpRemove ("^" ++ docsDir config ++ "/") = None).
Proof.
  destruct p as [w out err]. unfold addRel, liftM, stripDocsDir, cret.
  destruct (startsWith (docsDir config ++ "/") pathArg).
  - destruct (regExpRemove ("^" ++ docsDir config ++ "/")) as [remove|]; cbn.
    + left. exists (remove pathArg). split; [reflexivity |].
      split; [discriminate |]. intros _. now exists remove.
    + right. now repeat split.
  - left. exists pathArg. split; [reflexivity |]. split; [reflexivity | discriminate].
Qed.

(** [add] with a path, step by step. *)
Lemma cliAdd_steps (root : string) (config : DocsIndexKeeperConfig)
    (pathArg : string) (p : Process) :
  cliAdd root config (Some pathArg) p
  = if negb (truthy pathArg)
    then Exited 1 (complained p
           "[docs-index-keeper] add requires a path. Example: docs-index-keeper add docs/my-doc.md")
    else
      if negb (existsIn (world p) (join root (indexFile config)))
      then Exited 1 (complained p
             ("[docs-index-keeper] Index file not found: " ++ indexFile config))
      else
        match addRel config pathArg p with
        | Returned rel _ =>
            if isExcluded config rel
            then Exited 1 (complained p
                   ("[docs-index-keeper] Path is excluded: " ++ pathArg))
            else
              if negb (existsIn (world p) (join root pathArg))
              then Exited 1 (complained p
                     ("[docs-index-keeper] File not found: " ++ pathArg))
              else
                match readFileSync (join root (indexFile config)) (world p) with
                | Throw e _ => Uncaught e p
                | Ok readme _ =>
                    if bool_decide (rel ∈ pathSet (parseTable readme))
                    then Returned tt (logged p
                           ("[docs-index-keeper] Already in index: " ++ rel))
                    else
                      match getFirstHeading root pathArg (world p) with
                      | Throw e _ => Uncaught e p
                      | Ok heading _ =>
                          Returned tt
                            (logged
                               (inWorld p
                                  (world_of
                                     (writeFileSync
                                        (join root (indexFile config))
                                        (insertRows readme
                                           [rowFor rel heading]
                                           defaultSentinel) (world p))))
                               ("[docs-index-keeper] Added to" ++ " "
                                ++ (indexFile config ++ ":") ++ " " ++ rel))
                      end
                end
        | _ => Uncaught RegExpSyntaxError p
        end.
Proof.
  destruct p as [w out err]. unfold cliAdd.
  destruct (negb (truthy pathArg)); [reflexivity |].
  cbn [world].
  unfold cbind at 1. unfold liftM at 1. cbn [world stdout stderr].
  rewrite existsSync_existsIn.
  destruct (existsIn w (join root (indexFile config))); [| reflexivity].
  cbv beta iota delta [negb].
  unfold cbind at 1.
  destruct (addRel_cases config pathArg (mkProcess w out err))
    as [(rel & -> & _) | (-> & _)]; [| reflexivity].
  destruct (isExcluded config rel); [reflexivity |].
  unfold cbind at 1. unfold liftM at 1. cbn [world stdout stderr].
  rewrite existsSync_existsIn.
  destruct (existsIn w (join root pathArg)); [| reflexivity].
  cbv beta iota delta [negb].
  unfold cbind at 1. unfold liftM at 1. cbn [world stdout stderr].
  pose proof (readOnly_readFileSync (join root (indexFile config)) w) as Hro.
  destruct (readFileSync (join root (indexFile config)) w) as [readme w' | e w'];
    cbn [world_of] in Hro; subst w'; [| reflexivity].
  cbv beta iota zeta.
  destruct (bool_decide (rel ∈ pathSet (parseTable readme))).
  - unfold consoleLog, logged. cbn [world stdout stderr]. reflexivity.
  - unfold cbind at 1. unfold liftM at 1. cbn [world stdout stderr].
    pose proof (readOnly_getFirstHeading root pathArg w) as Hro.
    destruct (getFirstHeading root pathArg w) as [heading w' | e w'];
      cbn [world_of] in Hro; subst w'; [| reflexivity].
    cbv beta iota.
    unfold cbind, liftM, writeFileSync, consoleLog, logged, inWorld, rowFor.
    cbn [world stdout stderr world_of].
    reflexivity.
Qed.

End AddCommand.

(** ** [add] and [update] *)

(** One trimmed line that ends in [.md] is one staged file. *)
Lemma mdLines_single (p : string) :
  trim p = p -> lacks LF p = true -> endsWith ".md" p = true ->
  mdLines p = [p].
Proof.
  intros Htrim Hlf Hmd. unfold mdLines.
  rewrite (splitLines_lacks p Hlf). cbn [map List.filter].
  now rewrite Htrim, Hmd.
Qed.

(** The doc-set filter and the exclusion test of [add] are the same
    test. *)
Lemma isStagedDoc_prefixed (config : DocsIndexKeeperConfig) (rel : string) :
  isStagedDoc config ((docsDir config ++ "/") ++ rel)
  = negb (isExcluded config rel).
Proof.
  unfold isStagedDoc, isExcluded. cbv zeta.
  set (docsPrefix := docsDir config ++ "/").
  rewrite JSFacts.startsWith_app. cbn [negb].
  rewrite JSFacts.sliceFrom_suffix by (rewrite JSFacts.length_append; lia).
  rewrite Nat2Z.id, JSFacts.str_drop_append.
  now destruct (existsb _ (exclude config)).
Qed.

Section AddAndUpdate.

Context `{Host}.
Variables (root : string) (config : DocsIndexKeeperConfig)
          (remove : string -> string).
Hypothesis Hre : regExpRemove ("^" ++ docsDir config ++ "/") = Some remove.

Lemma addRel_prefixed (rel : string) (p : Process) :
  addRel config ((docsDir config ++ "/") ++ rel) p
  = Returned (remove ((docsDir config ++ "/") ++ rel)) p.
Proof.
  destruct p as [w out err]. unfold addRel.
  rewrite JSFacts.startsWith_app. unfold liftM, stripDocsDir.
  rewrite Hre. reflexivity.
Qed.

(** [add] of a path under [docsDir] does what [update] does with that
    path staged: when [add] returns, [update] on the same world returns
    too, leaves the same files and the same write log, and the line
    [add] prints is the line of the [update] command when a row was
    added and [Already in index] when none was. *)
Theorem cliAdd_as_update (rel : string) (p p' : Process) :
  remove ((docsDir config ++ "/") ++ rel) = rel ->
  trim ((docsDir config ++ "/") ++ rel) = (docsDir config ++ "/") ++ rel ->
  lacks LF ((docsDir config ++ "/") ++ rel) = true ->
  endsWith ".md" ((docsDir config ++ "/") ++ rel) = true ->
  cliAdd root config (Some ((docsDir config ++ "/") ++ rel)) p = Returned tt p' ->
  exists r w',
    update root config (Some ((docsDir config ++ "/") ++ rel)) (world p) = Ok r w'
    /\ files w' = files (world p')
    /\ writes w' = writes (world p')
    /\ stdout p'
       = (stdout p
          ++ [if updated r
              then ("[docs-index-keeper] Added to" ++ " "
                    ++ (indexFile config ++ ":") ++ " "
                    ++ joinWith ", " (map path (added r)))%string
              else ("[docs-index-keeper] Already in index:" ++ " "
                    ++ rel)%string])%list.
Proof.
  set (pathArg := (docsDir config ++ "/") ++ rel).
  intros Hrel Htrim Hlf Hmd Hadd.
  assert (truthy pathArg = true) as Htruthy.
  { destruct pathArg; [discriminate | reflexivity]. }
  rewrite cliAdd_steps, Htruthy in Hadd. cbn [negb] in Hadd.
  destruct (existsIn (world p) (join root (indexFile config)));
    cbn [negb] in Hadd; [| discriminate].
  unfold pathArg in Hadd at 1. rewrite addRel_prefixed in Hadd.
  fold pathArg in Hadd. rewrite Hrel in Hadd.
  destruct (isExcluded config rel) eqn:Hex; [discriminate |].
  destruct (existsIn (world p) (join root pathArg));
    cbn [negb] in Hadd; [| discriminate].
  destruct (readFileSync (join root (indexFile config)) (world p))
    as [readme w0 | e w0] eqn:Hread; [| discriminate].
  apply readFileSync_returned in Hread as [Hidx _].
  rewrite update_steps, getStagedMdFiles_cases. cbn [nullish].
  rewrite Htruthy.
  replace (match git_staged (world p) with
           | Some _ => Ok (mdLines pathArg) (world p)
           | None => Ok (mdLines pathArg) (world p)
           end) with (Ok (mdLines pathArg) (world p))
    by now destruct (git_staged (world p)).
  rewrite (mdLines_single pathArg Htrim Hlf Hmd).
  cbn [length Nat.eqb]. cbv zeta.
  assert (getStagedDocs [pathArg] config = [pathArg]) as ->.
  { unfold getStagedDocs. cbn [List.filter]. unfold pathArg.
    now rewrite isStagedDoc_prefixed, Hex. }
  cbn [length Nat.eqb].
  pose proof (warnRootMd_unreadable [pathArg] config (world p)) as Hu2.
  destruct (warnRootMd_returns [pathArg] config (world p))
    as [w2 [Hwarn [[Hf2 Hw2] _]]].
  rewrite Hwarn in Hu2 |- *.
  cbn [world_of] in Hu2 |- *. rewrite Hf2, Hidx.
  unfold computeNewRows. rewrite computeNewRowsLoop_cons, Hre, Hrel.
  destruct (bool_decide (rel ∈ pathSet (parseTable readme))).
  - injection Hadd as <-. cbn [computeNewRowsLoop ret fst length Nat.eqb].
    exists noChange, w2. cbn [updated logged world stdout].
    repeat split; assumption.
  - rewrite (getFirstHeading_files root pathArg (world p) w2 Hf2 Hu2).
    destruct (getFirstHeading root pathArg (world p))
      as [heading w3 | e w3]; [| discriminate].
    injection Hadd as <-. cbn [onWorld].
    cbn [computeNewRowsLoop ret fst length Nat.eqb List.app].
    eexists. eexists. split; [reflexivity |].
    cbn [updated added logged inWorld world stdout world_of writeFileSync
         files writes map path rowFor joinWith].
    rewrite Hf2, Hw2. repeat split.
Qed.

End AddAndUpdate.

Lemma cliAdd_as_update_witness :
  exists r w',
    update (H := plainHost) "/repo" testConfig (Some "docs/new-doc.md")
      repoWithSentinel = Ok r w'
    /\ files w' = files (world processAfterAdd)
    /\ writes w' = writes (world processAfterAdd)
    /\ stdout processAfterAdd
       = [if updated r
          then "[docs-index-keeper] Added to docs/README.md: "
               ++ joinWith ", " (map path (added r))
          else "[docs-index-keeper] Already in index: new-doc.md"].
Proof.
  apply (cliAdd_as_update (H := plainHost) "/repo" testConfig
           (fun s => if startsWith "docs/" s then str_drop 5 s else s)
           eq_refl "new-doc.md" (processIn repoWithSentinel) processAfterAdd);
    reflexivity.
Defined.

(** ** [add], a second time *)

Section AddTwice.

Context `{Host}.

(** The docs-relative path does not depend on the process. *)
Lemma addRel_elsewhere (config : DocsIndexKeeperConfig) (pathArg rel : string)
    (p q : Process) :
  addRel config pathArg p = Returned rel p ->
  addRel config pathArg q = Returned rel q.
Proof.
  destruct p as [w out err], q as [w' out' err'].
  unfold addRel, liftM, stripDocsDir, cret.
  destruct (startsWith (docsDir config ++ "/") pathArg).
  - destruct (regExpRemove ("^" ++ docsDir config ++ "/")); cbn;
      [now intros [= <-] | discriminate].
  - now intros [= <-].
Qed.

(** A heading is one line. *)
Lemma headingOf_one_line (content h : string) :
  headingOf content = Some h -> lacks LF h = true.
Proof.
  unfold headingOf, headingMatch.
  destruct (headingFrom true content) as [g|] eqn:Hg; [| discriminate].
  intros [= <-]. apply headingFrom_spec in Hg as [_ Hg].
  apply noLineTerminator_lacks in Hg as [Hlf _]. now apply lacks_trim.
Qed.

(** When the archive row opens a line of the table and the path is one
    the row syntax can carry, [add] is idempotent: after an [add] that
    returned, the same [add] finds the path in the index, prints
    [Already in index] and leaves the world as it is. *)
Theorem cliAdd_twice (root : string) (config : DocsIndexKeeperConfig)
    (pathArg rel readme : string) (p p1 : Process) :
  files (world p) !! join root (indexFile config) = Some readme ->
  sentinelOpensTableLine readme = true ->
  addRel config pathArg p = Returned rel p ->
  plainPath rel = true ->
  cliAdd root config (Some pathArg) p = Returned tt p1 ->
  cliAdd root config (Some pathArg) p1
  = Returned tt
      (logged p1 ("[docs-index-keeper] Already in index:" ++ " " ++ rel)).
Proof.
  intros Hidx Hsent Hrel Hplain Hadd.
  rewrite cliAdd_steps in Hadd. rewrite cliAdd_steps.
  destruct (negb (truthy pathArg)); [discriminate |].
  rewrite (existsIn_found _ _ _ Hidx), Hrel in Hadd. cbn [negb] in Hadd.
  rewrite (readFileSync_found _ _ _ Hidx) in Hadd.
  rewrite (addRel_elsewhere config pathArg rel p p1 Hrel).
  destruct (isExcluded config rel); [discriminate |].
  destruct (existsIn (world p) (join root pathArg)) eqn:Hfile;
    cbn [negb] in Hadd; [| discriminate].
  destruct (bool_decide (rel ∈ pathSet (parseTable readme))) eqn:Hmem.
  - injection Hadd as <-. cbn [logged world].
    now rewrite (existsIn_found _ _ _ Hidx), Hfile,
      (readFileSync_found _ _ _ Hidx), Hmem.
  - destruct (getFirstHeading root pathArg (world p))
      as [heading w0 | e w0] eqn:Hheading; [| discriminate].
    injection Hadd as <-.
    cbn [logged inWorld world world_of writeFileSync].
    set (readme' := insertRows readme [rowFor rel heading] defaultSentinel).
    set (w1 := {| env_staged := env_staged (world p);
                  git_staged := git_staged (world p);
                  files := <[join root (indexFile config) := readme']>
                             (files (world p));
                  unreadable := unreadable (world p);
                  git_queries := git_queries (world p);
                  writes := (writes (world p)
                             ++ [(join root (indexFile config), readme')])%list;
                  console := console (world p) |}).
    assert (files w1 !! join root (indexFile config) = Some readme') as Hidx1
      by apply lookup_insert_eq.
    rewrite (existsIn_found _ _ _ Hidx1), (readFileSync_found _ _ _ Hidx1).
    cbn [negb].
    assert (existsIn w1 (join root pathArg) = true) as ->.
    { unfold existsIn in Hfile |- *. cbn [w1 files unreadable].
      apply orb_true_iff in Hfile as [Hf | Hu];
        [| now rewrite Hu, orb_true_r].
      apply bool_decide_eq_true in Hf.
      rewrite (bool_decide_eq_true_2 (is_Some _)); [reflexivity |].
      apply lookup_insert_is_Some'. now right. }
    cbn [negb].
    destruct (parseTable_insertRows_at_sentinel readme
                [rowFor rel heading] Hsent)
      as [before [after [_ Hnew]]]; [discriminate | |].
    { cbn [forallb]. rewrite andb_true_r. apply renderRow_linkMatch.
      apply rowFor_wellFormed; [exact Hplain |].
      intros h ->.
      now destruct (getFirstHeading_heading _ _ _ _ _ Hheading) as [_ [Hlf _]]. }
    fold readme' in Hnew. rewrite Hnew.
    rewrite (bool_decide_eq_true_2 (rel ∈ _)); [reflexivity |].
    unfold pathSet. rewrite elem_of_list_to_set, !map_app.
    rewrite !elem_of_app. right. left. cbn. apply list_elem_of_here.
Qed.


End AddTwice.

Lemma cliAdd_twice_witness :
  cliAdd (H := plainHost) "/repo" testConfig (Some "docs/new-doc.md")
    processAfterAdd
  = Returned tt
      (logged processAfterAdd
         "[docs-index-keeper] Already in index: new-doc.md").
Proof.
  apply (cliAdd_twice (H := plainHost) "/repo" testConfig "docs/new-doc.md"
           "new-doc.md" indexWithSentinel (processIn repoWithSentinel)
           processAfterAdd);
    reflexivity.
Defined.


(** ** [check] and [update] *)

Section CheckCommand.

Context `{Host}.


End CheckCommand.

(** * The configuration loader *)

Section LoaderFacts.

Context `{Host} `{JsonHost}.

(** The [try] around the parse of a file: no exception leaves it, and
    the world stays as it is. *)
Lemma tryParseFile_returns (p : string) (w : World) :
  tryParseFile p w
  = Ok (match files w !! p with
        | Some text => jsonParse text
        | None => None
        end) w.
Proof.
  unfold tryParseFile, readFileSync.
  destruct (files w !! p); [reflexivity |].
  now destruct (unreadable w !! p).
Qed.

(** What [package.json] gives. *)
Lemma fromPackageJson_returns (root : string) (w : World) :
  fromPackageJson root w
  = Ok (match files w !! join root "package.json" with
        | Some text =>
            match jsonParse text with
            | Some (JObject pkg) =>
                match pkg !! "docsIndexKeeper" with
                | Some cfg =>
                    if isObjectValue cfg
                    then Some (spread defaultObject cfg)
                    else None
                | None => None
                end
            | _ => None
            end
        | None => None
        end) w.
Proof.
  unfold fromPackageJson. unfold bind at 1.
  destruct (files w !! join root "package.json") as [text|] eqn:Hpkg.
  - rewrite (existsSync_found _ _ _ Hpkg). cbv beta iota.
    unfold bind at 1. rewrite tryParseFile_returns, Hpkg.
    destruct (jsonParse text) as [pkg|]; [| reflexivity].
    destruct pkg as [| b | n | s | items | pkg]; try reflexivity.
    cbn [getMember].
    destruct (pkg !! "docsIndexKeeper") as [cfg|]; [| reflexivity].
    now destruct (isObjectValue cfg).
  - destruct (unreadable w !! join root "package.json") as [u|] eqn:Hu.
    + rewrite (existsSync_unreadable _ _ _ Hu). cbv beta iota.
      unfold bind at 1. now rewrite tryParseFile_returns, Hpkg.
    + now rewrite (existsSync_missing _ _ Hpkg Hu).
Qed.

(** One turn of the loop over the rc files: a file that can be read
    decides, a path that exists and cannot be read ends the search, a
    path that does not exist passes on to the next. *)
Lemma fromRcFiles_cons (root rc : string) (rest : list string) (w : World) :
  fromRcFiles root (rc :: rest) w
  = match files w !! join root rc with
    | Some text =>
        Ok (match jsonParse text with
            | Some cfg => Some (spread defaultObject cfg)
            | None => None
            end) w
    | None =>
        match unreadable w !! join root rc with
        | Some _ => Ok None w
        | None => fromRcFiles root rest w
        end
    end.
Proof.
  cbn [fromRcFiles]. unfold bind at 1.
  destruct (files w !! join root rc) as [text|] eqn:Hrc.
  - rewrite (existsSync_found _ _ _ Hrc). cbv beta iota.
    unfold bind at 1. rewrite tryParseFile_returns, Hrc.
    now destruct (jsonParse text).
  - destruct (unreadable w !! join root rc) as [u|] eqn:Hu.
    + rewrite (existsSync_unreadable _ _ _ Hu). cbv beta iota.
      unfold bind at 1. now rewrite tryParseFile_returns, Hrc.
    + now rewrite (existsSync_missing _ _ Hrc Hu).
Qed.

(** The loop returns, with nothing or with values spread over the
    defaults, and leaves the world as it is. *)
Lemma fromRcFiles_returns (root : string) (paths : list string) (w : World) :
  exists r, fromRcFiles root paths w = Ok r w
            /\ forall cfg, r = Some cfg ->
                 exists v, cfg = spread defaultObject v.
Proof.
  induction paths as [|rc rest IH].
  - exists None. split; [reflexivity | discriminate].
  - rewrite fromRcFiles_cons.
    destruct (files w !! join root rc) as [text|].
    + eexists. split; [reflexivity |].
      destruct (jsonParse text) as [v|]; [| discriminate].
      intros cfg [= <-]. now exists v.
    + destruct (unreadable w !! join root rc); [| exact IH].
      exists None. split; [reflexivity | discriminate].
Qed.

(** Every key of the defaults is a key of what a spread over the
    defaults gives. *)
Lemma spread_keeps_keys (v : Json) (k : string) :
  is_Some (defaultObject !! k) -> is_Some (spread defaultObject v !! k).
Proof.
  intros Hk. unfold spread. apply lookup_union_is_Some. now right.
Qed.

(** [loadConfig] always returns: no file, no content of a file and no
    [JSON.parse] makes it throw; it leaves the world as it is; and the
    object it returns has every key of the defaults. *)
Theorem loadConfig_returns_with_default_keys (root : string) (w : World) :
  exists cfg,
    loadConfig root w = Ok cfg w
    /\ forall k, is_Some (defaultObject !! k) -> is_Some (cfg !! k).
Proof.
  unfold loadConfig. unfold bind at 1. rewrite fromPackageJson_returns.
  match goal with
  | |- context [match ?r with Some cfg => ret cfg | None => _ end] =>
      assert (forall cfg, r = Some cfg -> exists v, cfg = spread defaultObject v)
        as Hpkg; [| destruct r as [cfg|]]
  end.
  { intros cfg.
    destruct (files w !! join root "package.json") as [text|];
      [| discriminate].
    destruct (jsonParse text) as [[| | | | |pkg]|]; try discriminate.
    destruct (pkg !! "docsIndexKeeper") as [v|]; [| discriminate].
    destruct (isObjectValue v); [| discriminate].
    intros [= <-]. now exists v. }
  - exists cfg. split; [reflexivity |].
    destruct (Hpkg cfg eq_refl) as [v ->]. intros k. apply spread_keeps_keys.
  - unfold bind at 1.
    destruct (fromRcFiles_returns root rcPaths w) as [r [-> Hr]].
    destruct r as [cfg|].
    + exists cfg. split; [reflexivity |].
      destruct (Hr cfg eq_refl) as [v ->]. intros k. apply spread_keeps_keys.
    + exists defaultObject. split; [reflexivity | auto].
Qed.

(** [package.json] comes first: when it parses to an object whose
    [docsIndexKeeper] is an object or an array, the result is that value
    spread over the defaults, whatever the rc files hold: a key of the
    value has the value's entry, every other key has the default. *)
Theorem loadConfig_package_json_first (root text : string)
    (pkg : gmap string Json) (cfg : Json) (w : World) :
  files w !! join root "package.json" = Some text ->
  jsonParse text = Some (JObject pkg) ->
  pkg !! "docsIndexKeeper" = Some cfg ->
  isObjectValue cfg = true ->
  exists result,
    loadConfig root w = Ok result w
    /\ (forall k v, ownProperties cfg !! k = Some v -> result !! k = Some v)
    /\ (forall k, ownProperties cfg !! k = None ->
                  result !! k = defaultObject !! k).
Proof.
  intros Hfile Hparse Hmember Hobj.
  exists (spread defaultObject cfg). split; [| split].
  - unfold loadConfig. unfold bind at 1.
    now rewrite fromPackageJson_returns, Hfile, Hparse, Hmember, Hobj.
  - intros k v Hk. unfold spread. now apply lookup_union_Some_l.
  - intros k Hk. unfold spread. now apply lookup_union_r.
Qed.

(** An rc file that exists ends the search: when [package.json] is not
    there and the first rc file is not JSON, the result is the defaults,
    also when the second rc file is there and is valid. *)
Theorem loadConfig_broken_rc_file_gives_defaults (root text : string)
    (w : World) :
  files w !! join root "package.json" = None ->
  files w !! join root ".docs-index-keeper.json" = Some text ->
  jsonParse text = None ->
  loadConfig root w = Ok defaultObject w.
Proof.
  intros Hpkg Hrc Hparse. unfold loadConfig. unfold bind at 1.
  rewrite fromPackageJson_returns, Hpkg. cbv beta iota.
  unfold bind at 1. unfold rcPaths.
  now rewrite fromRcFiles_cons, Hrc, Hparse.
Qed.

End LoaderFacts.

Lemma loadConfig_package_json_first_witness :
  exists result,
    loadConfig (H := plainHost) (H0 := parseKnown) "/repo" repoWithPackageJson
    = Ok result repoWithPackageJson
    /\ (forall k v, fromPkgObject !! k = Some v -> result !! k = Some v)
    /\ (forall k, fromPkgObject !! k = None ->
                  result !! k = defaultObject !! k).
Proof.
  apply (loadConfig_package_json_first (H := plainHost) (H0 := parseKnown)
           "/repo" packageJsonText
           (<["docsIndexKeeper" := JObject fromPkgObject]> ∅)
           (JObject fromPkgObject) repoWithPackageJson);
    reflexivity.
Defined.

Lemma loadConfig_broken_rc_file_gives_defaults_witness :
  loadConfig (H := plainHost) (H0 := parseKnown) "/repo" repoWithBrokenRc
  = Ok defaultObject repoWithBrokenRc.
Proof.
  apply (loadConfig_broken_rc_file_gives_defaults (H := plainHost)
           (H0 := parseKnown) "/repo" "{ docsDir" repoWithBrokenRc);
    reflexivity.
Defined.

(** * The root-level warning *)

(** The resolver prints nothing. *)
Lemma getStagedMdFiles_console (stagedOverride : option string) (w : World) :
  console (world_of (getStagedMdFiles stagedOverride w)) = console w.
Proof.
  rewrite getStagedMdFiles_cases.
  destruct (nullish stagedOverride (env_staged w)) as [raw|];
    [destruct (truthy raw) |]; destruct (git_staged w); reflexivity.
Qed.

(** A filter that refuses every element returns nothing. *)
Lemma filter_none {A} (f : A -> bool) (l : list A) :
  (forall x, In x l -> f x = false) -> List.filter f l = [].
Proof.
  induction l as [|x l IH]; [reflexivity |]. intros Hall. cbn [List.filter].
  rewrite (Hall x (or_introl eq_refl)). apply IH.
  intros y Hy. apply Hall. now right.
Qed.

Section Warning.

Context `{Host}.

(** [update] warns about files at the root and in [.github] only: when
    every staged [.md] path has a [/] and does not start with
    [.github/], [update] prints nothing, whatever the warning settings
    are.  (A path under [docsDir] has a [/]; it starts with [.github/]
    only when [docsDir] is [.github] or lies under it.) *)
Theorem update_warns_about_root_files_only (root : string)
    (config : DocsIndexKeeperConfig) (stagedOverride : option string)
    (w w1 : World) (staged : list string) :
  getStagedMdFiles stagedOverride w = Ok staged w1 ->
  (forall p, In p staged ->
     includes "/" p = true /\ startsWith ".github/" p = false) ->
  console (world_of (update root config stagedOverride w)) = console w.
Proof.
  intros Hstaged Hnested.
  pose proof (getStagedMdFiles_console stagedOverride w) as Hconsole.
  rewrite update_steps, Hstaged. rewrite Hstaged in Hconsole.
  cbn [world_of] in Hconsole.
  destruct (length staged =? 0)%nat; [exact Hconsole |].
  assert (warnRootMd staged config w1 = Ok tt w1) as ->.
  { unfold warnRootMd. destruct (negb (warnRootMdFlag config)); [reflexivity |].
    rewrite (filter_none _ staged); [reflexivity |].
    intros p Hp. destruct (Hnested p Hp) as [-> ->]. reflexivity. }
  cbn [world_of]. cbv zeta.
  destruct (length (getStagedDocs staged config) =? 0)%nat; [exact Hconsole |].
  destruct (files w1 !! join root (indexFile config)) as [readme|];
    [| now destruct (unreadable w1 !! join root (indexFile config))].
  pose proof (readOnly_computeNewRows root (getStagedDocs staged config)
                (pathSet (parseTable readme)) config w1) as Hrows.
  destruct (computeNewRows root (getStagedDocs staged config)
              (pathSet (parseTable readme)) config w1) as [res w3 | e w3];
    cbn [world_of] in Hrows; subst w3; [| exact Hconsole].
  destruct (length (fst res) =? 0)%nat; exact Hconsole.
Qed.

End Warning.

Lemma update_warns_about_root_files_only_witness :
  console (world_of (update (H := plainHost) "/repo"
                       (withWarning testConfig [] true)
                       (Some "docs/new-doc.md") repoWithSentinel))
  = console repoWithSentinel.
Proof.
  apply (update_warns_about_root_files_only (H := plainHost) "/repo"
           (withWarning testConfig [] true) (Some "docs/new-doc.md")
           repoWithSentinel repoWithSentinel ["docs/new-doc.md"]).
  - reflexivity.
  - intros p [<- | []]. split; reflexivity.
Defined.
